(** * Galileo Asset Tokeniser: a shallow embedding of [main.py]

    The service keeps two process-global lists ([assets_db], [pnfts_db]) and
    two counters ([asset_counter], [pnft_counter]).  Every endpoint is a
    handler that reads and writes these globals and either returns a value
    or raises [HTTPException].  Handlers are embedded as computations in a
    state-and-exception monad over the record [State] of the four globals.

    Python [int] is unbounded, so identifiers are [Z]; [str] is [string];
    [Optional[T]] is [option T]. *)

From Stdlib Require Import ZArith String Ascii List Lia.
From stdpp Require Import base option list list_numbers strings pretty.

Local Open Scope Z_scope.
Local Open Scope string_scope.
Local Open Scope list_scope.

(** ** Data models (the pydantic classes) *)

Module Asset.
Record t : Type := mk
  { id : option Z;
    name : string;
    serial_number : string;
    description : string;
    owner : string }.
End Asset.

Module AssetCreate.
Record t : Type := mk
  { name : string;
    serial_number : string;
    description : string;
    owner : string }.
End AssetCreate.

Module pNFT.
Record t : Type := mk
  { id : option Z;
    asset_id : Z;
    token_uri : string;
    issued_date : string;
    current_owner : string }.

(** The attribute assignment [pnft.current_owner = v]. *)
Definition set_current_owner (pnft : t) (v : string) : t :=
  {| id := id pnft;
     asset_id := asset_id pnft;
     token_uri := token_uri pnft;
     issued_date := issued_date pnft;
     current_owner := v |}.
End pNFT.

Module pNFTCreate.
Record t : Type := mk
  { asset_id : Z;
    token_uri : string;
    current_owner : string }.
End pNFTCreate.

Module pNFTTransfer.
Record t : Type := mk { new_owner : string }.
End pNFTTransfer.

(** [fastapi.HTTPException(status_code=..., detail=...)]. *)
Record HTTPException : Type := mkHTTPException
  { status_code : Z;
    detail : string }.

(** ** The global state *)

Record State : Type := mkState
  { assets_db : list Asset.t;
    pnfts_db : list pNFT.t;
    asset_counter : Z;
    pnft_counter : Z }.

(** The module-level initialisation: empty lists, counters at 0. *)
Definition initial : State :=
  {| assets_db := []; pnfts_db := []; asset_counter := 0; pnft_counter := 0 |}.

Definition set_assets_db (v : list Asset.t) (s : State) : State :=
  {| assets_db := v; pnfts_db := pnfts_db s;
     asset_counter := asset_counter s; pnft_counter := pnft_counter s |}.
Definition set_pnfts_db (v : list pNFT.t) (s : State) : State :=
  {| assets_db := assets_db s; pnfts_db := v;
     asset_counter := asset_counter s; pnft_counter := pnft_counter s |}.
Definition set_asset_counter (v : Z) (s : State) : State :=
  {| assets_db := assets_db s; pnfts_db := pnfts_db s;
     asset_counter := v; pnft_counter := pnft_counter s |}.
Definition set_pnft_counter (v : Z) (s : State) : State :=
  {| assets_db := assets_db s; pnfts_db := pnfts_db s;
     asset_counter := asset_counter s; pnft_counter := v |}.

(** ** The handler monad: global state plus a raised exception

    A raise keeps the state reached so far (Python does not roll back). *)

Inductive outcome (A : Type) : Type :=
| Return (a : A)
| Raise (e : HTTPException).
Arguments Return {A} a.
Arguments Raise {A} e.

Definition Handler (A : Type) : Type := State -> outcome A * State.

Definition ret {A} (a : A) : Handler A := fun s => (Return a, s).
Definition raise {A} (e : HTTPException) : Handler A := fun s => (Raise e, s).
Definition bind {A B} (m : Handler A) (k : A -> Handler B) : Handler B :=
  fun s => match m s with
           | (Return a, s') => k a s'
           | (Raise e, s') => (Raise e, s')
           end.
Definition gets {A} (f : State -> A) : Handler A := fun s => (Return (f s), s).
Definition modify (f : State -> State) : Handler unit := fun s => (Return tt, f s).

Declare Scope handler_scope.
Delimit Scope handler_scope with handler.
Notation "x <- m ;; k" := (bind m (fun x => k))
  (at level 100, m at level 99, k at level 200, right associativity,
   format "'[v' x  <-  m  ;; '/' k ']'") : handler_scope.
Notation "m ;; k" := (bind m (fun _ => k))
  (at level 100, k at level 200, right associativity,
   format "'[v' m  ;; '/' k ']'") : handler_scope.
Local Open Scope handler_scope.

(** ** Python primitives used by the handlers *)

(** [x == k] where [x : Optional[int]] and [k : int]: [None] equals no
    integer. *)
Definition py_eq (x : option Z) (k : Z) : bool :=
  match x with
  | Some z => Z.eqb z k
  | None => false
  end.

(** [str(k)] for an [int], as interpolated by an f-string: decimal digits,
    a leading [-] for negatives. *)
Definition str_int (k : Z) : string := pretty k.

(** Truthiness of an [Optional[str]]: [None] and the empty string are
    falsy. *)
Definition truthy (o : option string) : bool :=
  match o with
  | None => false
  | Some s => negb (String.eqb s "")
  end.

(** ** Helper functions *)

(** [get_asset_by_id]: the first asset of the list whose id equals
    [asset_id], else [None]. *)
Fixpoint get_asset_by_id (db : list Asset.t) (asset_id : Z) : option Asset.t :=
  match db with
  | [] => None
  | asset :: rest =>
      if py_eq (Asset.id asset) asset_id then Some asset
      else get_asset_by_id rest asset_id
  end.

(** [get_pnft_by_id]: the first pNFT of the list whose id equals [pnft_id]. *)
Fixpoint get_pnft_by_id (db : list pNFT.t) (pnft_id : Z) : option pNFT.t :=
  match db with
  | [] => None
  | pnft :: rest =>
      if py_eq (pNFT.id pnft) pnft_id then Some pnft
      else get_pnft_by_id rest pnft_id
  end.

(** ** API endpoints *)

(** [GET /]: the constant banner. *)
Record Banner : Type := mkBanner
  { message : string;
    version : string;
    docs : string;
    endpoints : list (string * string) }.

Definition root : Handler Banner :=
  ret {| message := "Welcome to Galileo Asset Tokeniser API";
         version := "1.0.0";
         docs := "/docs";
         endpoints :=
           [ ("POST /assets", "Create a physical asset");
             ("POST /pnfts", "Tokenize an existing asset");
             ("GET /pnfts", "List all pNFTs (with optional owner filter)");
             ("GET /pnfts/{id}", "Get pNFT details by ID");
             ("POST /pnfts/{id}/transfer", "Transfer pNFT ownership") ] |}.

(** [POST /assets]. *)
Definition create_asset (asset : AssetCreate.t) : Handler Asset.t :=
  modify (fun s => set_asset_counter (asset_counter s + 1) s) ;;
  id <- gets asset_counter ;;
  let new_asset :=
    {| Asset.id := Some id;
       Asset.name := AssetCreate.name asset;
       Asset.serial_number := AssetCreate.serial_number asset;
       Asset.description := AssetCreate.description asset;
       Asset.owner := AssetCreate.owner asset |} in
  modify (fun s => set_assets_db (assets_db s ++ [new_asset]) s) ;;
  ret new_asset.

(** [POST /pnfts].  [now] is the value of [datetime.now().isoformat()] at
    the time of the call, an input from the environment. *)
Definition create_pnft (pnft : pNFTCreate.t) (now : string) : Handler pNFT.t :=
  asset <- gets (fun s => get_asset_by_id (assets_db s) (pNFTCreate.asset_id pnft)) ;;
  match asset with
  | None =>
      raise {| status_code := 404;
               detail := "Asset with ID " +:+ str_int (pNFTCreate.asset_id pnft)
                           +:+ " not found" |}
  | Some _ =>
      modify (fun s => set_pnft_counter (pnft_counter s + 1) s) ;;
      id <- gets pnft_counter ;;
      let new_pnft :=
        {| pNFT.id := Some id;
           pNFT.asset_id := pNFTCreate.asset_id pnft;
           pNFT.token_uri := pNFTCreate.token_uri pnft;
           pNFT.issued_date := now;
           pNFT.current_owner := pNFTCreate.current_owner pnft |} in
      modify (fun s => set_pnfts_db (pnfts_db s ++ [new_pnft]) s) ;;
      ret new_pnft
  end.

(** The comprehension
    [[pnft for pnft in pnfts_db if pnft.current_owner == owner]]. *)
Fixpoint filtered_pnfts (db : list pNFT.t) (owner : string) : list pNFT.t :=
  match db with
  | [] => []
  | pnft :: rest =>
      if String.eqb (pNFT.current_owner pnft) owner
      then pnft :: filtered_pnfts rest owner
      else filtered_pnfts rest owner
  end.

(** [GET /pnfts?owner=...]; the query parameter defaults to [None]. *)
Definition list_pnfts (owner : option string) : Handler (list pNFT.t) :=
  if truthy owner then
    db <- gets pnfts_db ;;
    ret (filtered_pnfts db (default "" owner))
  else
    gets pnfts_db.

(** [GET /pnfts/{pnft_id}]. *)
Definition get_pnft (pnft_id : Z) : Handler pNFT.t :=
  pnft <- gets (fun s => get_pnft_by_id (pnfts_db s) pnft_id) ;;
  match pnft with
  | None =>
      raise {| status_code := 404;
               detail := "pNFT with ID " +:+ str_int pnft_id +:+ " not found" |}
  | Some pnft => ret pnft
  end.

(** The object [get_pnft_by_id] hands back is the one stored in the list, not
    a copy.  Every object is appended to [pnfts_db] once, at creation, and
    the list is never reordered, so an object is identified by its position;
    [pnft.current_owner = v] on the object returned for [pnft_id] therefore
    changes the first element whose id matches, where it sits. *)
Fixpoint assign_current_owner (db : list pNFT.t) (pnft_id : Z) (v : string)
  : list pNFT.t :=
  match db with
  | [] => []
  | pnft :: rest =>
      if py_eq (pNFT.id pnft) pnft_id
      then pNFT.set_current_owner pnft v :: rest
      else pnft :: assign_current_owner rest pnft_id v
  end.

(** The index at which the loop
    [for i, stored_pnft in enumerate(pnfts_db): if stored_pnft.id == pnft_id]
    reaches its [break], counting from [i]. *)
Fixpoint enumerate_find (i : nat) (db : list pNFT.t) (pnft_id : Z) : option nat :=
  match db with
  | [] => None
  | stored_pnft :: rest =>
      if py_eq (pNFT.id stored_pnft) pnft_id then Some i
      else enumerate_find (S i) rest pnft_id
  end.

(** "Update in the database": [pnfts_db[i] = pnft] at that index; the list
    is left alone when the loop runs to its end. *)
Definition update_in_database (db : list pNFT.t) (pnft_id : Z) (pnft : pNFT.t)
  : list pNFT.t :=
  match enumerate_find 0 db pnft_id with
  | Some i => <[i := pnft]> db
  | None => db
  end.

(** [POST /pnfts/{pnft_id}/transfer]. *)
Definition transfer_pnft (pnft_id : Z) (transfer : pNFTTransfer.t)
  : Handler pNFT.t :=
  found <- gets (fun s => get_pnft_by_id (pnfts_db s) pnft_id) ;;
  match found with
  | None =>
      raise {| status_code := 404;
               detail := "pNFT with ID " +:+ str_int pnft_id +:+ " not found" |}
  | Some stored =>
      (* pnft.current_owner = transfer.new_owner *)
      let pnft := pNFT.set_current_owner stored (pNFTTransfer.new_owner transfer) in
      modify (fun s =>
        set_pnfts_db
          (assign_current_owner (pnfts_db s) pnft_id
             (pNFTTransfer.new_owner transfer)) s) ;;
      (* Update in the database *)
      modify (fun s =>
        set_pnfts_db (update_in_database (pnfts_db s) pnft_id pnft) s) ;;
      ret pnft
  end.

(** [GET /assets]. *)
Definition list_assets : Handler (list Asset.t) := gets assets_db.

(** [GET /assets/{asset_id}]. *)
Definition get_asset (asset_id : Z) : Handler Asset.t :=
  asset <- gets (fun s => get_asset_by_id (assets_db s) asset_id) ;;
  match asset with
  | None =>
      raise {| status_code := 404;
               detail := "Asset with ID " +:+ str_int asset_id +:+ " not found" |}
  | Some asset => ret asset
  end.

(** ** The application: routing of typed requests

    A request carries the already-parsed path, query and body parameters of
    its route, with the types the handler signatures declare.  A returned
    value becomes the body of a 200 response; a raised [HTTPException]
    becomes an error response with its status code and detail. *)

Inductive request : Type :=
| GET_root
| POST_assets (asset : AssetCreate.t)
| POST_pnfts (pnft : pNFTCreate.t) (now : string)
| GET_pnfts (owner : option string)
| GET_pnfts_id (pnft_id : Z)
| POST_pnfts_id_transfer (pnft_id : Z) (transfer : pNFTTransfer.t)
| GET_assets
| GET_assets_id (asset_id : Z).

Inductive body : Type :=
| BannerBody (b : Banner)
| AssetBody (a : Asset.t)
| AssetListBody (l : list Asset.t)
| pNFTBody (p : pNFT.t)
| pNFTListBody (l : list pNFT.t).

Inductive response : Type :=
| OK (b : body)
| Error (e : HTTPException).

Definition respond {A} (to_body : A -> body) (h : Handler A)
  : State -> response * State :=
  fun s => match h s with
           | (Return a, s') => (OK (to_body a), s')
           | (Raise e, s') => (Error e, s')
           end.

Definition app (req : request) : State -> response * State :=
  match req with
  | GET_root => respond BannerBody root
  | POST_assets asset => respond AssetBody (create_asset asset)
  | POST_pnfts pnft now => respond pNFTBody (create_pnft pnft now)
  | GET_pnfts owner => respond pNFTListBody (list_pnfts owner)
  | GET_pnfts_id pnft_id => respond pNFTBody (get_pnft pnft_id)
  | POST_pnfts_id_transfer pnft_id transfer =>
      respond pNFTBody (transfer_pnft pnft_id transfer)
  | GET_assets => respond AssetListBody list_assets
  | GET_assets_id asset_id => respond AssetBody (get_asset asset_id)
  end.

(** A process lifetime: the requests served one after the other, from the
    state [s]; the result is the list of responses and the final state. *)
Fixpoint serve (reqs : list request) (s : State) : list response * State :=
  match reqs with
  | [] => ([], s)
  | req :: rest =>
      let '(r, s') := app req s in
      let '(rs, s'') := serve rest s' in
      (r :: rs, s'')
  end.

Definition state_after (reqs : list request) : State := snd (serve reqs initial).
Definition responses_to (reqs : list request) : list response :=
  fst (serve reqs initial).

(** ** [generate_token_uri] and the library calls it makes *)

(** [s[a:b]] for literal indices [0 <= a <= b]; a slice that runs past
    the end of [s] stops there. *)
Definition slice (a b : nat) (s : string) : string := substring a (b - a) s.

(** [s[a:]]. *)
Definition slice_from (a : nat) (s : string) : string :=
  substring a (String.length s - a) s.

(** [s.replace(c, '')] for a one-character [c]: every occurrence goes. *)
Fixpoint replace_with_empty (c : ascii) (s : string) : string :=
  match s with
  | EmptyString => EmptyString
  | String a rest =>
      if Ascii.eqb a c then replace_with_empty c rest
      else String a (replace_with_empty c rest)
  end.

Module uuid.
(** [uuid.uuid4()]: 16 bytes from [os.urandom], read as a 128-bit integer
    [random], with the RFC 4122 variant and the version 4 forced in. *)
Definition uuid4 (random : Z) : Z :=
  let int := Z.land random (Z.ones 128) in
  let int := Z.land int (Z.lnot (Z.shiftl 0xc000 48)) in
  let int := Z.lor int (Z.shiftl 0x8000 48) in
  let int := Z.land int (Z.lnot (Z.shiftl 0xf000 64)) in
  Z.lor int (Z.shiftl 4 76).

(** One lower-case hexadecimal digit. *)
Definition hexdigit (d : Z) : ascii :=
  match d with
  | 0 => "0" | 1 => "1" | 2 => "2" | 3 => "3"
  | 4 => "4" | 5 => "5" | 6 => "6" | 7 => "7"
  | 8 => "8" | 9 => "9" | 10 => "a" | 11 => "b"
  | 12 => "c" | 13 => "d" | 14 => "e" | _ => "f"
  end%char.

(** The [k] low hexadecimal digits of [n], most significant first. *)
Fixpoint hexdigits (k : nat) (n : Z) : string :=
  match k with
  | O => EmptyString
  | S k' =>
      String (hexdigit (Z.land (Z.shiftr n (4 * Z.of_nat k')) 15))
             (hexdigits k' n)
  end.

(** ['%032x' % n] for [0 <= n < 2^128]. *)
Definition format_032x (n : Z) : string := hexdigits 32 n.

(** [str(u)]: the digits in groups of 8-4-4-4-12. *)
Definition str (u : Z) : string :=
  let hex := format_032x u in
  slice 0 8 hex +:+ "-" +:+ slice 8 12 hex +:+ "-" +:+ slice 12 16 hex
    +:+ "-" +:+ slice 16 20 hex +:+ "-" +:+ slice_from 20 hex.
End uuid.

(** [generate_token_uri], given the integer drawn by [uuid4]. *)
Definition generate_token_uri (random : Z) : string :=
  "ipfs://Qm" +:+
    slice 0 44 (replace_with_empty "-" (uuid.str (uuid.uuid4 random))).

(** ** Definitions used to state the properties *)

(** The characters a hexadecimal rendering may use. *)
Definition is_hex (c : ascii) : bool :=
  existsb (Ascii.eqb c) (list_ascii_of_string "0123456789abcdef").

(** Both stores are scanned the same way; the facts about the scans are
    proved once, for a scan over any record type with an [id] field. *)
Fixpoint scan {A : Type} (ident : A -> option Z) (db : list A) (k : Z)
  : option A :=
  match db with
  | [] => None
  | x :: rest => if py_eq (ident x) k then Some x else scan ident rest k
  end.

(** What every state of a process lifetime satisfies: each store holds the
    ids 1, 2, ..., counter in this order, and every pNFT points at a stored
    asset. *)
Record consistent (s : State) : Prop := mkConsistent
  { asset_ids_consecutive :
      Asset.id <$> assets_db s = Some <$> seqZ 1 (asset_counter s);
    asset_counter_nonneg : 0 <= asset_counter s;
    pnft_ids_consecutive :
      pNFT.id <$> pnfts_db s = Some <$> seqZ 1 (pnft_counter s);
    pnft_counter_nonneg : 0 <= pnft_counter s;
    pnft_assets_exist :
      Forall (fun p => is_Some (get_asset_by_id (assets_db s) (pNFT.asset_id p)))
             (pnfts_db s) }.

(** The id handed out by a request, if the request is a creation in the
    given store and it succeeded. *)
Definition created_asset_id (req : request) (r : response) : option (option Z) :=
  match req, r with
  | POST_assets _, OK (AssetBody a) => Some (Asset.id a)
  | _, _ => None
  end.

Definition created_pnft_id (req : request) (r : response) : option (option Z) :=
  match req, r with
  | POST_pnfts _ _, OK (pNFTBody p) => Some (pNFT.id p)
  | _, _ => None
  end.

(** The ids handed out over a run, oldest first; [created] picks the
    store. *)
Definition assigned (created : request -> response -> option (option Z))
    (reqs : list request) (rs : list response) : list (option Z) :=
  omap (fun x => created x.1 x.2) (zip reqs rs).

Definition assigned_asset_ids (reqs : list request) : list (option Z) :=
  assigned created_asset_id reqs (responses_to reqs).

Definition assigned_pnft_ids (reqs : list request) : list (option Z) :=
  assigned created_pnft_id reqs (responses_to reqs).

(** The requests that can be answered with "not found", with the entity
    kind and the id they ask for, and whether the state has it. *)
Definition missing_entity (s : State) (req : request) : option (string * Z) :=
  match req with
  | POST_pnfts pnft _ =>
      match get_asset_by_id (assets_db s) (pNFTCreate.asset_id pnft) with
      | None => Some ("Asset", pNFTCreate.asset_id pnft)
      | Some _ => None
      end
  | GET_assets_id asset_id =>
      match get_asset_by_id (assets_db s) asset_id with
      | None => Some ("Asset", asset_id)
      | Some _ => None
      end
  | GET_pnfts_id pnft_id | POST_pnfts_id_transfer pnft_id _ =>
      match get_pnft_by_id (pnfts_db s) pnft_id with
      | None => Some ("pNFT", pnft_id)
      | Some _ => None
      end
  | GET_root | POST_assets _ | GET_pnfts _ | GET_assets => None
  end.

(** The NotFound error for an entity kind and id. *)
Definition NotFound (kind : string) (k : Z) : HTTPException :=
  {| status_code := 404;
     detail := kind +:+ " with ID " +:+ str_int k +:+ " not found" |}.

(** A state used in examples: Alice registers a watch and tokenizes it. *)
Definition watch : AssetCreate.t :=
  {| AssetCreate.name := "Watch"; AssetCreate.serial_number := "SN1";
     AssetCreate.description := "Luxury watch"; AssetCreate.owner := "Alice" |}.
Definition watch_token : pNFTCreate.t :=
  {| pNFTCreate.asset_id := 1; pNFTCreate.token_uri := "ipfs://x";
     pNFTCreate.current_owner := "Alice" |}.
Definition example_requests : list request :=
  [POST_assets watch; POST_pnfts watch_token "2024-01-01T00:00:00"].
Definition example_state : State := state_after example_requests.

(** ** Definitions used to state further properties *)

(** The requests routed to a GET endpoint. *)
Definition is_GET (req : request) : bool :=
  match req with
  | GET_root | GET_pnfts _ | GET_pnfts_id _ | GET_assets | GET_assets_id _ => true
  | POST_assets _ | POST_pnfts _ _ | POST_pnfts_id_transfer _ _ => false
  end.

(** The asset record a request created, if it is a successful asset
    creation. *)
Definition created_asset (req : request) (r : response) : option Asset.t :=
  match req, r with
  | POST_assets _, OK (AssetBody a) => Some a
  | _, _ => None
  end.

(** The asset records created over a run, oldest first. *)
Definition created_assets (reqs : list request) (rs : list response)
  : list Asset.t :=
  omap (fun x => created_asset x.1 x.2) (zip reqs rs).

(** The owner of the pNFT [k] after one request, given its owner [o]
    before: only a transfer of [k] names a new one. *)
Definition owner_after (k : Z) (o : string) (req : request) : string :=
  match req with
  | POST_pnfts_id_transfer pnft_id transfer =>
      if Z.eqb pnft_id k then pNFTTransfer.new_owner transfer else o
  | _ => o
  end.

(** The owner named by the last transfer of [k] among [reqs], or [o] when
    there is none. *)
Definition last_owner (k : Z) (reqs : list request) (o : string) : string :=
  foldl (owner_after k) o reqs.
(** * Properties *)

(** ** Lookups by id *)

Lemma py_eq_true x k : py_eq x k = true <-> x = Some k.
Proof.
  destruct x as [z|]; simpl; [|split; discriminate].
  rewrite Z.eqb_eq. split; congruence.
Qed.

Lemma py_eq_false x k : py_eq x k = false <-> x <> Some k.
Proof. rewrite <- py_eq_true. destruct (py_eq x k); split; congruence. Qed.

Section Lookup.
Context {A : Type} (ident : A -> option Z).

Lemma scan_Some db k x :
  scan ident db k = Some x -> x ∈ db /\ ident x = Some k.
Proof.
  induction db as [|y db IH]; simpl; [discriminate|].
  destruct (py_eq (ident y) k) eqn:E.
  - intros [= ->]. split; [left|]. by apply py_eq_true.
  - intros H. destruct (IH H). split; [by right|done].
Qed.

Lemma scan_None db k :
  scan ident db k = None <-> Forall (fun x => ident x <> Some k) db.
Proof.
  induction db as [|y db IH]; simpl.
  - split; [constructor|done].
  - destruct (py_eq (ident y) k) eqn:E.
    + apply py_eq_true in E. split; [discriminate|].
      intros H. by inversion H.
    + apply py_eq_false in E. rewrite IH. split.
      * by constructor.
      * intros H. by inversion H.
Qed.

Lemma scan_is_Some db k :
  is_Some (scan ident db k) <-> Exists (fun x => ident x = Some k) db.
Proof.
  induction db as [|y db IH]; simpl.
  - split; [by intros [? [=]]|by inversion 1].
  - destruct (py_eq (ident y) k) eqn:E.
    + apply py_eq_true in E. split; [by left|by eauto].
    + apply py_eq_false in E. rewrite IH. split; [by right|].
      by inversion 1.
Qed.

Lemma scan_app_l db db' k x :
  scan ident db k = Some x -> scan ident (db ++ db') k = Some x.
Proof.
  induction db as [|y db IH]; simpl; [discriminate|].
  destruct (py_eq (ident y) k); auto.
Qed.

Lemma scan_app_r db db' k :
  scan ident db k = None -> scan ident (db ++ db') k = scan ident db' k.
Proof.
  induction db as [|y db IH]; simpl; [done|].
  destruct (py_eq (ident y) k); [discriminate|auto].
Qed.

(** With pairwise distinct ids, the scan finds each stored record under
    its own id. *)
Lemma scan_NoDup db k x :
  NoDup (ident <$> db) -> x ∈ db -> ident x = Some k -> scan ident db k = Some x.
Proof.
  induction db as [|y db IH]; simpl; intros Hnd Hin Hid.
  - by apply elem_of_nil in Hin.
  - apply NoDup_cons in Hnd as [Hy Hnd].
    apply elem_of_cons in Hin as [->|Hin].
    + apply py_eq_true in Hid. by rewrite Hid.
    + destruct (py_eq (ident y) k) eqn:E; [|by apply IH].
      apply py_eq_true in E. exfalso. apply Hy.
      rewrite E, <- Hid. by apply list_elem_of_fmap_2.
Qed.
End Lookup.

Lemma get_asset_by_id_scan db k : get_asset_by_id db k = scan Asset.id db k.
Proof. induction db as [|a db IH]; simpl; [done|]. by rewrite IH. Qed.

Lemma get_pnft_by_id_scan db k : get_pnft_by_id db k = scan pNFT.id db k.
Proof. induction db as [|a db IH]; simpl; [done|]. by rewrite IH. Qed.

(** ** Transfer *)

Lemma assign_current_owner_spec db k v stored n :
  get_pnft_by_id db k = Some stored ->
  exists i,
    db !! i = Some stored /\
    assign_current_owner db k v = <[i := pNFT.set_current_owner stored v]> db /\
    get_pnft_by_id (assign_current_owner db k v) k
      = Some (pNFT.set_current_owner stored v) /\
    enumerate_find n (assign_current_owner db k v) k = Some (n + i)%nat.
Proof.
  revert n. induction db as [|p db IH]; simpl; intros n; [discriminate|].
  destruct (py_eq (pNFT.id p) k) eqn:E.
  - intros [= ->]. exists 0%nat. simpl. rewrite E.
    repeat split; f_equal; lia.
  - intros H. destruct (IH (S n) H) as (i & Hi & Heq & Hget & Hfind).
    exists (S i). simpl. rewrite E, Heq, <- Heq, Hget, Hfind.
    repeat split; try done. f_equal; lia.
Qed.

Lemma transfer_pnft_found s k transfer stored :
  get_pnft_by_id (pnfts_db s) k = Some stored ->
  exists i,
    pnfts_db s !! i = Some stored /\
    let updated :=
      pNFT.set_current_owner stored (pNFTTransfer.new_owner transfer) in
    transfer_pnft k transfer s
      = (Return updated, set_pnfts_db (<[i := updated]> (pnfts_db s)) s) /\
    get_pnft_by_id (<[i := updated]> (pnfts_db s)) k = Some updated.
Proof.
  intros H.
  destruct (assign_current_owner_spec _ _ (pNFTTransfer.new_owner transfer) _ 0 H)
    as (i & Hi & Heq & Hget & Hfind).
  exists i. split; [done|]. simpl.
  unfold transfer_pnft, bind, gets, modify, ret. rewrite H. simpl.
  unfold update_in_database. rewrite Hfind. simpl.
  rewrite Heq, list_insert_insert_eq. by rewrite <- Heq.
Qed.

(** C1. When some stored pNFT has the id [pnft_id], [transfer_pnft] returns
    the record that [get_pnft] returned before, with [current_owner] set to
    the new owner and [id], [asset_id], [token_uri] and [issued_date] as they
    were; the store changes at that record's position only, and [get_pnft]
    on the new state returns the updated record. *)
Theorem transfer_pnft_sets_current_owner
    (s : State) (pnft_id : Z) (transfer : pNFTTransfer.t) :
  Exists (fun p => pNFT.id p = Some pnft_id) (pnfts_db s) ->
  exists (stored updated : pNFT.t) (i : nat) (s' : State),
    pnfts_db s !! i = Some stored /\
    pNFT.id stored = Some pnft_id /\
    get_pnft pnft_id s = (Return stored, s) /\
    transfer_pnft pnft_id transfer s = (Return updated, s') /\
    pNFT.current_owner updated = pNFTTransfer.new_owner transfer /\
    pNFT.id updated = pNFT.id stored /\
    pNFT.asset_id updated = pNFT.asset_id stored /\
    pNFT.token_uri updated = pNFT.token_uri stored /\
    pNFT.issued_date updated = pNFT.issued_date stored /\
    s' = set_pnfts_db (<[i := updated]> (pnfts_db s)) s /\
    get_pnft pnft_id s' = (Return updated, s').
Proof.
  intros Hpresent.
  apply (scan_is_Some pNFT.id) in Hpresent as [stored Hget].
  rewrite <- get_pnft_by_id_scan in Hget.
  destruct (transfer_pnft_found s pnft_id transfer stored Hget)
    as (i & Hi & Htransfer & Hget').
  simpl in Htransfer, Hget'.
  exists stored, (pNFT.set_current_owner stored (pNFTTransfer.new_owner transfer)),
    i, (set_pnfts_db
          (<[i := pNFT.set_current_owner stored (pNFTTransfer.new_owner transfer)]>
             (pnfts_db s)) s).
  rewrite get_pnft_by_id_scan in Hget.
  pose proof (scan_Some _ _ _ _ Hget) as [_ Hid].
  rewrite <- get_pnft_by_id_scan in Hget.
  repeat split; try done.
  - unfold get_pnft, bind, gets, ret. by rewrite Hget.
  - unfold get_pnft, bind, gets, ret. simpl. by rewrite Hget'.
Qed.

Lemma transfer_pnft_sets_current_owner_witness :
  Exists (fun p => pNFT.id p = Some 1) (pnfts_db example_state) /\
  exists (stored updated : pNFT.t) (i : nat) (s' : State),
    pnfts_db example_state !! i = Some stored /\
    pNFT.id stored = Some 1 /\
    get_pnft 1 example_state = (Return stored, example_state) /\
    transfer_pnft 1 {| pNFTTransfer.new_owner := "Bob" |} example_state
      = (Return updated, s') /\
    pNFT.current_owner updated = "Bob" /\
    pNFT.id updated = pNFT.id stored /\
    pNFT.asset_id updated = pNFT.asset_id stored /\
    pNFT.token_uri updated = pNFT.token_uri stored /\
    pNFT.issued_date updated = pNFT.issued_date stored /\
    s' = set_pnfts_db (<[i := updated]> (pnfts_db example_state)) example_state /\
    get_pnft 1 s' = (Return updated, s').
Proof.
  assert (H : Exists (fun p => pNFT.id p = Some 1) (pnfts_db example_state)).
  { vm_compute. left. reflexivity. }
  split; [exact H|].
  exact (transfer_pnft_sets_current_owner example_state 1
           {| pNFTTransfer.new_owner := "Bob" |} H).
Defined.

(** The worked example of the specification: ids 1 and 1, the transfer to
    Bob, and the two filtered listings. *)
Example spec_example :
  let s := example_state in
  let '(r, s') := app (POST_pnfts_id_transfer 1 {| pNFTTransfer.new_owner := "Bob" |}) s in
  let bobs :=
    {| pNFT.id := Some 1; pNFT.asset_id := 1; pNFT.token_uri := "ipfs://x";
       pNFT.issued_date := "2024-01-01T00:00:00"; pNFT.current_owner := "Bob" |} in
  Asset.id <$> assets_db s = [Some 1] /\
  r = OK (pNFTBody bobs) /\
  fst (app (GET_pnfts (Some "Bob")) s') = OK (pNFTListBody [bobs]) /\
  fst (app (GET_pnfts (Some "Alice")) s') = OK (pNFTListBody []).
Proof. vm_compute. repeat split. Qed.

(** ** Creation against a missing asset *)

(** C2. When no stored asset has the id [asset_id], [create_pnft] raises
    the 404 "Asset with ID ... not found" and the whole state, the pNFT
    store included, is what it was. *)
Theorem create_pnft_unknown_asset
    (s : State) (pnft : pNFTCreate.t) (now : string) :
  Forall (fun a => Asset.id a <> Some (pNFTCreate.asset_id pnft)) (assets_db s) ->
  create_pnft pnft now s
    = (Raise {| status_code := 404;
                detail := "Asset with ID " +:+ str_int (pNFTCreate.asset_id pnft)
                            +:+ " not found" |}, s) /\
  pnfts_db (snd (create_pnft pnft now s)) = pnfts_db s /\
  app (POST_pnfts pnft now) s
    = (Error (NotFound "Asset" (pNFTCreate.asset_id pnft)), s).
Proof.
  intros Hnone. apply (scan_None Asset.id) in Hnone.
  rewrite <- get_asset_by_id_scan in Hnone.
  assert (Hraise : create_pnft pnft now s
            = (Raise (NotFound "Asset" (pNFTCreate.asset_id pnft)), s)).
  { unfold create_pnft, bind, gets, raise. by rewrite Hnone. }
  split; [exact Hraise|]. split.
  - by rewrite Hraise.
  - simpl. unfold respond. by rewrite Hraise.
Qed.

Lemma create_pnft_unknown_asset_witness :
  let pnft := {| pNFTCreate.asset_id := 7; pNFTCreate.token_uri := "ipfs://y";
                 pNFTCreate.current_owner := "Carol" |} in
  Forall (fun a => Asset.id a <> Some 7) (assets_db example_state) /\
  create_pnft pnft "2024-01-02T00:00:00" example_state
    = (Raise {| status_code := 404; detail := "Asset with ID 7 not found" |},
       example_state).
Proof.
  assert (H : Forall (fun a => Asset.id a <> Some 7) (assets_db example_state)).
  { vm_compute. repeat constructor. discriminate. }
  split; [exact H|].
  exact (proj1 (create_pnft_unknown_asset example_state
                  {| pNFTCreate.asset_id := 7; pNFTCreate.token_uri := "ipfs://y";
                     pNFTCreate.current_owner := "Carol" |}
                  "2024-01-02T00:00:00" H)).
Defined.

(** ** Listing *)

Lemma filtered_pnfts_filter db owner :
  filtered_pnfts db owner = filter (fun p => pNFT.current_owner p = owner) db.
Proof.
  induction db as [|p db IH]; simpl; [done|].
  rewrite filter_cons. destruct (String.eqb_spec (pNFT.current_owner p) owner).
  - rewrite decide_True by done. by rewrite IH.
  - by rewrite decide_False.
Qed.

Lemma truthy_Some owner : truthy (Some owner) = true <-> owner <> "".
Proof.
  simpl. destruct (String.eqb_spec owner ""); simpl; split; congruence.
Qed.

(** C3, as stated, fails for the empty filter string: Alice's pNFT is
    listed although its owner is not the empty string. *)
Lemma list_pnfts_empty_filter_counterexample :
  fst (list_pnfts (Some "") example_state)
    <> Return (filter (fun p => pNFT.current_owner p = "") (pnfts_db example_state)).
Proof. vm_compute. discriminate. Qed.

(** C3, amended. For every non-empty filter string, [list_pnfts] returns the
    stored pNFTs whose [current_owner] equals it, in the order of the store
    (the result is the [filter] of the store, hence a sublist of it holding
    exactly the matching records); without a filter it returns the store.
    The state is not changed. *)
Theorem list_pnfts_filters_by_owner (s : State) (owner : string) :
  owner <> "" ->
  let matching := filter (fun p => pNFT.current_owner p = owner) (pnfts_db s) in
  list_pnfts (Some owner) s = (Return matching, s) /\
  sublist matching (pnfts_db s) /\
  (forall p, p ∈ matching <-> p ∈ pnfts_db s /\ pNFT.current_owner p = owner) /\
  list_pnfts None s = (Return (pnfts_db s), s).
Proof.
  intros Hne matching. split; [|split; [|split]].
  - unfold list_pnfts. apply truthy_Some in Hne. rewrite Hne.
    unfold bind, gets, ret. simpl. by rewrite filtered_pnfts_filter.
  - apply sublist_filter.
  - intros p. unfold matching. rewrite list_elem_of_filter. tauto.
  - reflexivity.
Qed.

Lemma list_pnfts_filters_by_owner_witness :
  "Alice" <> "" /\
  list_pnfts (Some "Alice") example_state
    = (Return (filter (fun p => pNFT.current_owner p = "Alice")
                      (pnfts_db example_state)), example_state).
Proof.
  assert (H : "Alice" <> "") by discriminate.
  split; [exact H|].
  exact (proj1 (list_pnfts_filters_by_owner example_state "Alice" H)).
Defined.

(** C9. The empty filter string is falsy, so [list_pnfts] returns the whole
    store, whatever the owners of the stored pNFTs are; in the example
    state that is Alice's pNFT. *)
Theorem list_pnfts_empty_string_lists_all (s : State) :
  list_pnfts (Some "") s = (Return (pnfts_db s), s) /\
  list_pnfts (Some "") s = list_pnfts None s /\
  exists p, fst (list_pnfts (Some "") example_state) = Return [p] /\
            pNFT.current_owner p = "Alice".
Proof.
  repeat split. eexists. vm_compute. split; reflexivity.
Qed.

(** ** What the creating handlers compute *)

Lemma create_asset_eq (asset : AssetCreate.t) (s : State) :
  let new_asset :=
    {| Asset.id := Some (asset_counter s + 1);
       Asset.name := AssetCreate.name asset;
       Asset.serial_number := AssetCreate.serial_number asset;
       Asset.description := AssetCreate.description asset;
       Asset.owner := AssetCreate.owner asset |} in
  create_asset asset s
    = (Return new_asset,
       {| assets_db := assets_db s ++ [new_asset];
          pnfts_db := pnfts_db s;
          asset_counter := asset_counter s + 1;
          pnft_counter := pnft_counter s |}).
Proof. reflexivity. Qed.

Lemma create_pnft_eq (pnft : pNFTCreate.t) (now : string) (s : State) asset :
  get_asset_by_id (assets_db s) (pNFTCreate.asset_id pnft) = Some asset ->
  let new_pnft :=
    {| pNFT.id := Some (pnft_counter s + 1);
       pNFT.asset_id := pNFTCreate.asset_id pnft;
       pNFT.token_uri := pNFTCreate.token_uri pnft;
       pNFT.issued_date := now;
       pNFT.current_owner := pNFTCreate.current_owner pnft |} in
  create_pnft pnft now s
    = (Return new_pnft,
       {| assets_db := assets_db s;
          pnfts_db := pnfts_db s ++ [new_pnft];
          asset_counter := asset_counter s;
          pnft_counter := pnft_counter s + 1 |}).
Proof.
  intros H. unfold create_pnft, bind, gets. rewrite H. reflexivity.
Qed.

Lemma create_pnft_raises (pnft : pNFTCreate.t) (now : string) (s : State) :
  get_asset_by_id (assets_db s) (pNFTCreate.asset_id pnft) = None ->
  create_pnft pnft now s = (Raise (NotFound "Asset" (pNFTCreate.asset_id pnft)), s).
Proof.
  intros H. unfold create_pnft, bind, gets. rewrite H. reflexivity.
Qed.

Lemma transfer_pnft_raises k transfer s :
  get_pnft_by_id (pnfts_db s) k = None ->
  transfer_pnft k transfer s = (Raise (NotFound "pNFT" k), s).
Proof.
  intros H. unfold transfer_pnft, bind, gets. rewrite H. reflexivity.
Qed.

(** ** The invariant of a process lifetime *)

Lemma seqZ_snoc (c : Z) :
  0 <= c -> seqZ 1 (c + 1) = seqZ 1 c ++ [c + 1].
Proof.
  intros Hc. rewrite seqZ_app by lia.
  rewrite (seqZ_cons (1 + c)) by lia.
  rewrite (seqZ_nil (Z.succ (1 + c))) by lia.
  by rewrite (Z.add_comm 1 c).
Qed.

Lemma consistent_initial : consistent initial.
Proof. split; simpl; try done; lia. Qed.

Lemma consistent_create_asset asset s :
  consistent s -> consistent (snd (create_asset asset s)).
Proof.
  intros [Ha Hac Hp Hpc Hrefs]. rewrite create_asset_eq. split; simpl; try done.
  - rewrite fmap_app, Ha, seqZ_snoc, fmap_app by done. done.
  - lia.
  - eapply Forall_impl; [exact Hrefs|]. intros p [a Hfound]. exists a.
    rewrite get_asset_by_id_scan in *. by apply scan_app_l.
Qed.

Lemma consistent_create_pnft pnft now s :
  consistent s -> consistent (snd (create_pnft pnft now s)).
Proof.
  intros Hs.
  destruct (get_asset_by_id (assets_db s) (pNFTCreate.asset_id pnft))
    as [asset|] eqn:Hfound.
  - rewrite (create_pnft_eq _ _ _ _ Hfound). destruct Hs as [Ha Hac Hp Hpc Hrefs].
    split; simpl; try done.
    + rewrite fmap_app, Hp, seqZ_snoc, fmap_app by done. done.
    + lia.
    + apply Forall_app. split; [done|]. constructor; [|constructor].
      simpl. by rewrite Hfound.
  - by rewrite (create_pnft_raises _ _ _ Hfound).
Qed.

Lemma consistent_transfer_pnft k transfer s :
  consistent s -> consistent (snd (transfer_pnft k transfer s)).
Proof.
  intros Hs.
  destruct (get_pnft_by_id (pnfts_db s) k) as [stored|] eqn:Hfound.
  - destruct (transfer_pnft_found s k transfer stored Hfound) as (i & Hi & Heq & _).
    simpl in Heq. rewrite Heq. destruct Hs as [Ha Hac Hp Hpc Hrefs].
    split; simpl; try done.
    + rewrite list_fmap_insert. simpl. rewrite list_insert_id; [done|].
      by rewrite list_lookup_fmap, Hi.
    + apply Forall_insert; [done|]. simpl.
      by apply (Forall_lookup_1 _ _ _ _ Hrefs Hi).
  - by rewrite (transfer_pnft_raises _ _ _ Hfound).
Qed.

Lemma snd_respond {A} (to_body : A -> body) (h : Handler A) s :
  snd (respond to_body h s) = snd (h s).
Proof. unfold respond. by destruct (h s) as [[]]. Qed.

Lemma consistent_app req s : consistent s -> consistent (snd (app req s)).
Proof.
  intros Hs.
  destruct req as [|asset|pnft now|owner|k|k transfer| |k];
    unfold app; rewrite snd_respond.
  - done.
  - by apply consistent_create_asset.
  - by apply consistent_create_pnft.
  - unfold list_pnfts, bind, gets, ret. by destruct (truthy owner).
  - unfold get_pnft, bind, gets, ret, raise.
    by destruct (get_pnft_by_id (pnfts_db s) k).
  - by apply consistent_transfer_pnft.
  - done.
  - unfold get_asset, bind, gets, ret, raise.
    by destruct (get_asset_by_id (assets_db s) k).
Qed.

Lemma serve_cons req reqs s :
  serve (req :: reqs) s
    = (fst (app req s) :: fst (serve reqs (snd (app req s))),
       snd (serve reqs (snd (app req s)))).
Proof.
  simpl. destruct (app req s) as [r s']. simpl.
  by destruct (serve reqs s') as [rs s''].
Qed.

Lemma consistent_serve reqs s : consistent s -> consistent (snd (serve reqs s)).
Proof.
  revert s. induction reqs as [|req reqs IH]; intros s Hs; [done|].
  rewrite serve_cons. simpl. by apply IH, consistent_app.
Qed.

Lemma consistent_state_after reqs : consistent (state_after reqs).
Proof. apply consistent_serve, consistent_initial. Qed.

Lemma serve_app reqs more s :
  serve (reqs ++ more) s
    = (fst (serve reqs s) ++ fst (serve more (snd (serve reqs s))),
       snd (serve more (snd (serve reqs s)))).
Proof.
  revert s. induction reqs as [|req reqs IH]; intros s.
  - simpl. by destruct (serve more s).
  - rewrite <- app_comm_cons, !serve_cons, IH. done.
Qed.

(** Assets are only ever appended. *)
Lemma assets_db_app req s : assets_db s `prefix_of` assets_db (snd (app req s)).
Proof.
  destruct req as [|asset|pnft now|owner|k|k transfer| |k];
    unfold app; rewrite snd_respond; try done.
  - rewrite create_asset_eq. simpl. by apply prefix_app_r.
  - destruct (get_asset_by_id (assets_db s) (pNFTCreate.asset_id pnft)) eqn:E.
    + by rewrite (create_pnft_eq _ _ _ _ E).
    + by rewrite (create_pnft_raises _ _ _ E).
  - unfold list_pnfts, bind, gets, ret. by destruct (truthy owner).
  - unfold get_pnft, bind, gets, ret, raise.
    by destruct (get_pnft_by_id (pnfts_db s) k).
  - destruct (get_pnft_by_id (pnfts_db s) k) as [stored|] eqn:E.
    + destruct (transfer_pnft_found s k transfer stored E) as (i & _ & Heq & _).
      simpl in Heq. by rewrite Heq.
    + by rewrite (transfer_pnft_raises _ _ _ E).
  - unfold get_asset, bind, gets, ret, raise.
    by destruct (get_asset_by_id (assets_db s) k).
Qed.

Lemma assets_db_serve reqs s :
  assets_db s `prefix_of` assets_db (snd (serve reqs s)).
Proof.
  revert s. induction reqs as [|req reqs IH]; intros s; [done|].
  rewrite serve_cons. simpl. etrans; [apply (assets_db_app req)|apply IH].
Qed.

(** ** Referential integrity *)

(** C5. After any sequence of requests, every stored pNFT has the
    [asset_id] of a stored asset; and the asset store of a later state
    extends the earlier one, so no asset ever disappears. *)
Theorem pnft_asset_references_resolve (reqs : list request) :
  let s := state_after reqs in
  Forall (fun p => exists a, a ∈ assets_db s /\
                             Asset.id a = Some (pNFT.asset_id p))
         (pnfts_db s) /\
  forall more : list request,
    assets_db s `prefix_of` assets_db (state_after (reqs ++ more)).
Proof.
  simpl. split.
  - eapply Forall_impl; [apply (pnft_assets_exist _ (consistent_state_after reqs))|].
    intros p [a Hfound]. exists a. simpl in Hfound.
    rewrite get_asset_by_id_scan in Hfound. by apply scan_Some in Hfound.
  - intros more. unfold state_after. rewrite serve_app. simpl.
    apply assets_db_serve.
Qed.

(** ** Creating and fetching an asset *)

Lemma elem_of_ids_bound {A} (ident : A -> option Z) (db : list A) (c : Z) x :
  ident <$> db = Some <$> seqZ 1 c -> x ∈ db ->
  exists m, ident x = Some m /\ 1 <= m <= c.
Proof.
  intros Hids Hx. apply (list_elem_of_fmap_2 ident) in Hx.
  rewrite Hids in Hx. apply list_elem_of_fmap in Hx as (m & -> & Hm).
  apply elem_of_seqZ in Hm. exists m. split; [done|lia].
Qed.

Lemma scan_fresh {A} (ident : A -> option Z) (db : list A) (c k : Z) :
  ident <$> db = Some <$> seqZ 1 c -> c < k -> scan ident db k = None.
Proof.
  intros Hids Hk. apply scan_None, Forall_forall. intros x Hx.
  destruct (elem_of_ids_bound ident db c x Hids Hx) as (m & -> & Hm).
  intros [= ->]. lia.
Qed.

Lemma ids_length {A} (ident : A -> option Z) (db : list A) (c : Z) :
  ident <$> db = Some <$> seqZ 1 c -> 0 <= c -> c = Z.of_nat (length db).
Proof.
  intros Hids Hc. apply (f_equal length) in Hids.
  rewrite !length_fmap, length_seqZ in Hids. lia.
Qed.

Lemma get_asset_found k s a :
  get_asset_by_id (assets_db s) k = Some a -> get_asset k s = (Return a, s).
Proof. intros H. unfold get_asset, bind, gets, ret. by rewrite H. Qed.

Lemma get_asset_raises k s :
  get_asset_by_id (assets_db s) k = None ->
  get_asset k s = (Raise (NotFound "Asset" k), s).
Proof. intros H. unfold get_asset, bind, gets, raise. by rewrite H. Qed.

Lemma get_pnft_found k s p :
  get_pnft_by_id (pnfts_db s) k = Some p -> get_pnft k s = (Return p, s).
Proof. intros H. unfold get_pnft, bind, gets, ret. by rewrite H. Qed.

Lemma get_pnft_raises k s :
  get_pnft_by_id (pnfts_db s) k = None ->
  get_pnft k s = (Raise (NotFound "pNFT" k), s).
Proof. intros H. unfold get_pnft, bind, gets, raise. by rewrite H. Qed.

(** C6. In any state of a process lifetime, [create_asset] returns a record
    with the four given field values and the next id, and [get_asset] with
    that id then returns the same record, also after any further requests;
    [create_asset] returns a record, never an error, in every state at
    all. *)
Theorem create_asset_then_get_asset (reqs : list request) (asset : AssetCreate.t) :
  let s := state_after reqs in
  (exists (k : Z) (s' : State),
     let new_asset :=
       {| Asset.id := Some k;
          Asset.name := AssetCreate.name asset;
          Asset.serial_number := AssetCreate.serial_number asset;
          Asset.description := AssetCreate.description asset;
          Asset.owner := AssetCreate.owner asset |} in
     k = asset_counter s + 1 /\
     create_asset asset s = (Return new_asset, s') /\
     get_asset k s' = (Return new_asset, s') /\
     forall more : list request,
       fst (get_asset k (snd (serve more s'))) = Return new_asset) /\
  forall s0 : State, exists a s0', create_asset asset s0 = (Return a, s0').
Proof.
  intros s. split; [|intros s0; eexists _, _; apply create_asset_eq].
  pose proof (consistent_state_after reqs) as Hs. fold s in Hs.
  eexists _, _. cbv zeta. split; [reflexivity|].
  rewrite create_asset_eq. cbv zeta. split; [reflexivity|].
  match goal with |- get_asset ?k ?s' = (Return ?a, _) /\ _ =>
    assert (Hget : get_asset_by_id (assets_db s') k = Some a)
  end.
  { simpl. rewrite get_asset_by_id_scan, scan_app_r.
    - simpl. by rewrite Z.eqb_refl.
    - apply (scan_fresh _ _ (asset_counter s)); [apply Hs|lia]. }
  split.
  - by apply get_asset_found.
  - intros more.
    match goal with |- context [serve more ?s'] =>
      destruct (assets_db_serve more s') as [l Hl]
    end.
    erewrite get_asset_found; [done|]. rewrite Hl, get_asset_by_id_scan.
    apply scan_app_l. by rewrite <- get_asset_by_id_scan.
Qed.

(** ** Errors *)

Lemma app_outcome (s : State) (req : request) :
  match missing_entity s req with
  | Some (kind, k) => app req s = (Error (NotFound kind k), s)
  | None => exists b s', app req s = (OK b, s')
  end.
Proof.
  destruct req as [|asset|pnft now|owner|k|k transfer| |k];
    unfold app, respond, missing_entity.
  - by eexists _, _.
  - rewrite create_asset_eq. by eexists _, _.
  - destruct (get_asset_by_id (assets_db s) (pNFTCreate.asset_id pnft)) eqn:E.
    + rewrite (create_pnft_eq _ _ _ _ E). by eexists _, _.
    + by rewrite (create_pnft_raises _ _ _ E).
  - unfold list_pnfts, bind, gets, ret. destruct (truthy owner); by eexists _, _.
  - destruct (get_pnft_by_id (pnfts_db s) k) eqn:E.
    + rewrite (get_pnft_found _ _ _ E). by eexists _, _.
    + by rewrite (get_pnft_raises _ _ E).
  - destruct (get_pnft_by_id (pnfts_db s) k) as [stored|] eqn:E.
    + destruct (transfer_pnft_found s k transfer stored E) as (i & _ & Heq & _).
      simpl in Heq. rewrite Heq. by eexists _, _.
    + by rewrite (transfer_pnft_raises _ _ _ E).
  - by eexists _, _.
  - destruct (get_asset_by_id (assets_db s) k) eqn:E.
    + rewrite (get_asset_found _ _ _ E). by eexists _, _.
    + by rewrite (get_asset_raises _ _ E).
Qed.

(** C8. A request is answered with an error exactly when it is a pNFT
    creation, a lookup or a transfer whose id the state does not have: the
    error then is the 404 whose detail is the entity kind, " with ID ", the
    decimal id and " not found", and the state is unchanged.  Every other
    request, whatever its parameters, gets a 200 response. *)
Theorem only_error_is_not_found (s : State) (req : request) :
  match missing_entity s req with
  | Some (kind, k) =>
      app req s = (Error (NotFound kind k), s) /\
      status_code (NotFound kind k) = 404 /\
      detail (NotFound kind k) = kind +:+ " with ID " +:+ pretty k +:+ " not found"
  | None => exists b s', app req s = (OK b, s')
  end /\
  forall e s', app req s = (Error e, s') ->
    s' = s /\ status_code e = 404 /\
    exists kind k, missing_entity s req = Some (kind, k) /\
                   detail e = kind +:+ " with ID " +:+ pretty k +:+ " not found".
Proof.
  pose proof (app_outcome s req) as H.
  destruct (missing_entity s req) as [[kind k]|].
  - split; [by repeat split|]. rewrite H. intros e s' [= <- <-].
    repeat split. by exists kind, k.
  - split; [done|]. destruct H as (b & s' & ->). discriminate.
Qed.

Lemma only_error_is_not_found_witness :
  let e := {| status_code := 404; detail := "pNFT with ID 42 not found" |} in
  app (GET_pnfts_id 42) example_state = (Error e, example_state) /\
  status_code e = 404 /\
  exists kind k, missing_entity example_state (GET_pnfts_id 42) = Some (kind, k) /\
                 detail e = kind +:+ " with ID " +:+ pretty k +:+ " not found".
Proof.
  assert (H : app (GET_pnfts_id 42) example_state
              = (Error {| status_code := 404;
                          detail := "pNFT with ID 42 not found" |},
                 example_state)) by (vm_compute; reflexivity).
  split; [exact H|].
  exact (proj2 (proj2 (only_error_is_not_found example_state (GET_pnfts_id 42))
                  _ _ H)).
Defined.

(** ** Identifiers *)

(** One request either hands out the next id of a store and advances its
    counter by one, or hands out nothing and leaves the counter alone. *)
Lemma app_asset_counter req s :
  (created_asset_id req (fst (app req s)) = Some (Some (asset_counter s + 1)) /\
   asset_counter (snd (app req s)) = asset_counter s + 1) \/
  (created_asset_id req (fst (app req s)) = None /\
   asset_counter (snd (app req s)) = asset_counter s).
Proof.
  destruct req as [|asset|pnft now|owner|k|k transfer| |k];
    try (right; split; [done|]); unfold app; rewrite ?snd_respond; try done.
  - left. unfold respond. by rewrite create_asset_eq.
  - destruct (get_asset_by_id (assets_db s) (pNFTCreate.asset_id pnft)) eqn:E.
    + by rewrite (create_pnft_eq _ _ _ _ E).
    + by rewrite (create_pnft_raises _ _ _ E).
  - unfold list_pnfts, bind, gets, ret. by destruct (truthy owner).
  - unfold get_pnft, bind, gets, ret, raise.
    by destruct (get_pnft_by_id (pnfts_db s) k).
  - destruct (get_pnft_by_id (pnfts_db s) k) as [stored|] eqn:E.
    + destruct (transfer_pnft_found s k transfer stored E) as (i & _ & Heq & _).
      simpl in Heq. by rewrite Heq.
    + by rewrite (transfer_pnft_raises _ _ _ E).
  - unfold get_asset, bind, gets, ret, raise.
    by destruct (get_asset_by_id (assets_db s) k).
Qed.

Lemma app_pnft_counter req s :
  (created_pnft_id req (fst (app req s)) = Some (Some (pnft_counter s + 1)) /\
   pnft_counter (snd (app req s)) = pnft_counter s + 1) \/
  (created_pnft_id req (fst (app req s)) = None /\
   pnft_counter (snd (app req s)) = pnft_counter s).
Proof.
  destruct req as [|asset|pnft now|owner|k|k transfer| |k];
    try (right; split; [done|]); unfold app; rewrite ?snd_respond; try done.
  - unfold respond.
    destruct (get_asset_by_id (assets_db s) (pNFTCreate.asset_id pnft)) eqn:E.
    + left. by rewrite (create_pnft_eq _ _ _ _ E).
    + right. by rewrite (create_pnft_raises _ _ _ E).
  - unfold list_pnfts, bind, gets, ret. by destruct (truthy owner).
  - unfold get_pnft, bind, gets, ret, raise.
    by destruct (get_pnft_by_id (pnfts_db s) k).
  - destruct (get_pnft_by_id (pnfts_db s) k) as [stored|] eqn:E.
    + destruct (transfer_pnft_found s k transfer stored E) as (i & _ & Heq & _).
      simpl in Heq. by rewrite Heq.
    + by rewrite (transfer_pnft_raises _ _ _ E).
  - unfold get_asset, bind, gets, ret, raise.
    by destruct (get_asset_by_id (assets_db s) k).
Qed.

Section Assigned.
(** The argument is the same for both stores: [counter] reads the store's
    counter and [created] the id a request handed out. *)
Context (counter : State -> Z)
        (created : request -> response -> option (option Z)).
Hypothesis step : forall req s,
  (created req (fst (app req s)) = Some (Some (counter s + 1)) /\
   counter (snd (app req s)) = counter s + 1) \/
  (created req (fst (app req s)) = None /\
   counter (snd (app req s)) = counter s).

Lemma assigned_cons req reqs r rs :
  assigned created (req :: reqs) (r :: rs)
    = match created req r with
      | Some x => x :: assigned created reqs rs
      | None => assigned created reqs rs
      end.
Proof. reflexivity. Qed.

Lemma assigned_serve reqs s :
  let ids := assigned created reqs (fst (serve reqs s)) in
  ids = Some <$> seqZ (counter s + 1) (Z.of_nat (length ids)) /\
  counter (snd (serve reqs s)) = counter s + Z.of_nat (length ids).
Proof.
  revert s. induction reqs as [|req reqs IH]; intros s.
  - simpl. split; [done|lia].
  - rewrite serve_cons. cbn [fst snd]. rewrite assigned_cons.
    destruct (IH (snd (app req s))) as [Hids Hcount].
    destruct (step req s) as [[-> Hc]|[-> Hc]]; rewrite Hc in *.
    + rewrite length_cons. split; [|lia].
      rewrite seqZ_cons by lia. rewrite fmap_cons.
      f_equal. rewrite Hids at 1. f_equal. f_equal; lia.
    + done.
Qed.
End Assigned.

Lemma ids_ordered (ids : list (option Z)) :
  ids = Some <$> seqZ 1 (Z.of_nat (length ids)) ->
  forall i j x y, (i < j)%nat -> ids !! i = Some x -> ids !! j = Some y ->
    exists m n, x = Some m /\ y = Some n /\ 1 <= m < n.
Proof.
  intros Hids i j x y Hij Hi Hj. rewrite Hids in Hi, Hj.
  rewrite list_lookup_fmap in Hi, Hj.
  destruct (seqZ 1 (Z.of_nat (length ids)) !! i) as [m|] eqn:Hm; [|done].
  destruct (seqZ 1 (Z.of_nat (length ids)) !! j) as [n|] eqn:Hn; [|done].
  simpl in Hi, Hj. injection Hi as <-. injection Hj as <-.
  apply lookup_seqZ in Hm as [-> _]. apply lookup_seqZ in Hn as [-> _].
  exists (1 + Z.of_nat i), (1 + Z.of_nat j). repeat split; lia.
Qed.

Lemma ids_NoDup (ids : list (option Z)) :
  ids = Some <$> seqZ 1 (Z.of_nat (length ids)) -> NoDup ids.
Proof.
  intros ->. apply (NoDup_fmap_2 _). apply NoDup_seqZ.
Qed.

(** C4. Over any sequence of requests from the initial state, the ids
    handed out by the successful asset creations are 1, 2, ..., n in this
    order, and so are those handed out by the successful pNFT creations:
    every id is a positive integer, the first is 1, each is greater than
    all those handed out before it in its store, and none occurs twice. *)
Theorem ids_strictly_increasing (reqs : list request) :
  let assets := assigned_asset_ids reqs in
  let pnfts := assigned_pnft_ids reqs in
  assets = Some <$> seqZ 1 (Z.of_nat (length assets)) /\
  pnfts = Some <$> seqZ 1 (Z.of_nat (length pnfts)) /\
  (forall i j x y, (i < j)%nat -> assets !! i = Some x -> assets !! j = Some y ->
     exists m n, x = Some m /\ y = Some n /\ 1 <= m < n) /\
  (forall i j x y, (i < j)%nat -> pnfts !! i = Some x -> pnfts !! j = Some y ->
     exists m n, x = Some m /\ y = Some n /\ 1 <= m < n) /\
  NoDup assets /\ NoDup pnfts.
Proof.
  intros assets pnfts.
  assert (Ha : assets = Some <$> seqZ 1 (Z.of_nat (length assets))).
  { apply (assigned_serve asset_counter created_asset_id app_asset_counter
             reqs initial). }
  assert (Hp : pnfts = Some <$> seqZ 1 (Z.of_nat (length pnfts))).
  { apply (assigned_serve pnft_counter created_pnft_id app_pnft_counter
             reqs initial). }
  split; [exact Ha|]. split; [exact Hp|].
  split; [exact (ids_ordered _ Ha)|]. split; [exact (ids_ordered _ Hp)|].
  split; [exact (ids_NoDup _ Ha)|exact (ids_NoDup _ Hp)].
Qed.

Lemma ids_strictly_increasing_witness :
  let reqs := example_requests ++ [POST_assets watch; POST_pnfts watch_token "later"] in
  assigned_asset_ids reqs = [Some 1; Some 2] /\
  assigned_pnft_ids reqs = [Some 1; Some 2] /\
  (1 < 2)%nat /\
  exists m n, Some 1 = Some m /\ Some 2 = Some n /\ 1 <= m < n.
Proof.
  pose (reqs := example_requests ++ [POST_assets watch; POST_pnfts watch_token "later"]).
  assert (Ha : assigned_asset_ids reqs = [Some 1; Some 2])
    by (vm_compute; reflexivity).
  assert (Hp : assigned_pnft_ids reqs = [Some 1; Some 2])
    by (vm_compute; reflexivity).
  assert (Hlt : (0 < 1)%nat) by lia.
  split; [exact Ha|]. split; [exact Hp|]. split; [lia|].
  refine (proj1 (proj2 (proj2 (ids_strictly_increasing reqs)))
            0%nat 1%nat (Some 1) (Some 2) Hlt _ _).
  - rewrite Ha. reflexivity.
  - rewrite Ha. reflexivity.
Defined.

(** C10. A pNFT creation that raises leaves the state, and with it
    [pnft_counter], as it was; and after any sequence of requests from the
    initial state the ids of the stored pNFTs are 1, 2, ..., n in store
    order, where n is the number of stored pNFTs and the value of
    [pnft_counter]; likewise for the assets and [asset_counter]. *)
Theorem stored_ids_have_no_gaps :
  (forall s pnft now e s',
     create_pnft pnft now s = (Raise e, s') ->
     pnft_counter s' = pnft_counter s /\ s' = s) /\
  forall reqs : list request,
    let s := state_after reqs in
    pNFT.id <$> pnfts_db s = Some <$> seqZ 1 (Z.of_nat (length (pnfts_db s))) /\
    pnft_counter s = Z.of_nat (length (pnfts_db s)) /\
    Asset.id <$> assets_db s = Some <$> seqZ 1 (Z.of_nat (length (assets_db s))) /\
    asset_counter s = Z.of_nat (length (assets_db s)).
Proof.
  split.
  - intros s pnft now e s' H.
    destruct (get_asset_by_id (assets_db s) (pNFTCreate.asset_id pnft)) eqn:E.
    + by rewrite (create_pnft_eq _ _ _ _ E) in H.
    + rewrite (create_pnft_raises _ _ _ E) in H. by injection H as _ <-.
  - intros reqs s. destruct (consistent_state_after reqs) as [Ha Hac Hp Hpc _].
    fold s in Ha, Hac, Hp, Hpc.
    pose proof (ids_length _ _ _ Ha Hac) as Hla.
    pose proof (ids_length _ _ _ Hp Hpc) as Hlp.
    rewrite <- Hla, <- Hlp. done.
Qed.

Lemma stored_ids_have_no_gaps_witness :
  let pnft := {| pNFTCreate.asset_id := 7; pNFTCreate.token_uri := "ipfs://y";
                 pNFTCreate.current_owner := "Carol" |} in
  let e := {| status_code := 404; detail := "Asset with ID 7 not found" |} in
  create_pnft pnft "now" example_state = (Raise e, example_state) /\
  pnft_counter example_state = pnft_counter example_state /\
  pNFT.id <$> pnfts_db (state_after (example_requests ++ [POST_pnfts pnft "now"]))
    = [Some 1].
Proof.
  pose (pnft := {| pNFTCreate.asset_id := 7; pNFTCreate.token_uri := "ipfs://y";
                   pNFTCreate.current_owner := "Carol" |}).
  assert (H : create_pnft pnft "now" example_state
              = (Raise {| status_code := 404;
                          detail := "Asset with ID 7 not found" |}, example_state))
    by (vm_compute; reflexivity).
  split; [exact H|]. split.
  - exact (proj1 (proj1 stored_ids_have_no_gaps _ _ _ _ _ H)).
  - vm_compute. reflexivity.
Defined.

(** ** The token URI helper *)

Lemma is_hex_hexdigit d : is_hex (uuid.hexdigit d) = true.
Proof.
  destruct d as [|p|p]; try reflexivity.
  do 5 (try destruct p as [p|p|]); reflexivity.
Qed.

Lemma is_hex_not_dash c : is_hex c = true -> Ascii.eqb c "-" = false.
Proof.
  intros H. destruct (Ascii.eqb_spec c "-") as [->|]; [|done].
  vm_compute in H. discriminate.
Qed.

Lemma hexdigits_length k n : String.length (uuid.hexdigits k n) = k.
Proof. induction k as [|k IH]; simpl; [done|]. by rewrite IH. Qed.

Lemma hexdigits_is_hex k n :
  forallb is_hex (list_ascii_of_string (uuid.hexdigits k n)) = true.
Proof.
  induction k as [|k IH]; [done|].
  cbn [uuid.hexdigits list_ascii_of_string forallb].
  by rewrite is_hex_hexdigit, IH.
Qed.

Lemma replace_with_empty_eq c s :
  replace_with_empty c (String c s) = replace_with_empty c s.
Proof. simpl. by rewrite Ascii.eqb_refl. Qed.

Lemma replace_with_empty_ne c a s :
  Ascii.eqb a c = false ->
  replace_with_empty c (String a s) = String a (replace_with_empty c s).
Proof. simpl. by intros ->. Qed.

(** Grouping 32 dash-free characters as 8-4-4-4-12, taking the dashes out
    again and cutting at 44 gives the 32 characters back. *)
Lemma ungroup (hex : string) :
  String.length hex = 32%nat ->
  forallb is_hex (list_ascii_of_string hex) = true ->
  slice 0 44
    (replace_with_empty "-"
       (slice 0 8 hex +:+ "-" +:+ slice 8 12 hex +:+ "-"
          +:+ slice 12 16 hex +:+ "-" +:+ slice 16 20 hex +:+ "-"
          +:+ slice_from 20 hex)) = hex.
Proof.
  intros Hlen Hhex.
  do 32 (destruct hex as [|? hex]; [discriminate|]).
  destruct hex; [|discriminate]. clear Hlen.
  cbn [list_ascii_of_string forallb] in Hhex.
  repeat match type of Hhex with
         | (is_hex ?c && _)%bool = true =>
             let H := fresh "H" in
             apply andb_prop in Hhex as [H Hhex]; apply is_hex_not_dash in H
         end.
  cbn [slice slice_from substring String.length Nat.sub].
  cbv [String.append].
  repeat first [ rewrite replace_with_empty_eq
               | rewrite replace_with_empty_ne by assumption ].
  reflexivity.
Qed.

(** Two draws: all zero bits, and a draw whose version and variant bits get
    overwritten. *)
Example generate_token_uri_zero :
  generate_token_uri 0 = "ipfs://Qm00000000000040008000000000000000".
Proof. vm_compute. reflexivity. Qed.

Example generate_token_uri_draw :
  generate_token_uri 0x123e4567e89b12d3a456426614174000
    = "ipfs://Qm123e4567e89b42d3a456426614174000".
Proof. vm_compute. reflexivity. Qed.

(** C7 does not hold of the code.  For every value drawn by [uuid4],
    [generate_token_uri] returns [ipfs://Qm] followed by the 32 hexadecimal
    digits of the UUID: the dashes are removed from a 36-character string,
    so the cut at 44 removes nothing and 44 characters are never reached. *)
Theorem generate_token_uri_has_32_hex_digits (random : Z) :
  exists digits : string,
    generate_token_uri random = "ipfs://Qm" +:+ digits /\
    digits = uuid.format_032x (uuid.uuid4 random) /\
    String.length digits = 32%nat /\
    forallb is_hex (list_ascii_of_string digits) = true /\
    String.length (generate_token_uri random) = 41%nat.
Proof.
  exists (uuid.format_032x (uuid.uuid4 random)).
  assert (Hlen : String.length (uuid.format_032x (uuid.uuid4 random)) = 32%nat)
    by apply hexdigits_length.
  assert (Hhex : forallb is_hex
            (list_ascii_of_string (uuid.format_032x (uuid.uuid4 random))) = true)
    by apply hexdigits_is_hex.
  assert (Heq : generate_token_uri random
                = "ipfs://Qm" +:+ uuid.format_032x (uuid.uuid4 random)).
  { unfold generate_token_uri, uuid.str. cbv zeta. by rewrite ungroup. }
  repeat split; try done.
  rewrite Heq. change (S (S (S (S (S (S (S (S (S (String.length
    (uuid.format_032x (uuid.uuid4 random))))))))))) = 41%nat). by rewrite Hlen.
Qed.

(** * Further properties *)

(** ** The lookup helpers *)

Lemma scan_first_match {A} (ident : A -> option Z) (db : list A) (k : Z) :
  match scan ident db k with
  | Some x =>
      exists i, db !! i = Some x /\ ident x = Some k /\
                forall j y, (j < i)%nat -> db !! j = Some y -> ident y <> Some k
  | None => Forall (fun y => ident y <> Some k) db
  end.
Proof.
  induction db as [|y db IH]; simpl; [constructor|].
  destruct (py_eq (ident y) k) eqn:E.
  - exists 0%nat. apply py_eq_true in E. repeat split; try done. lia.
  - apply py_eq_false in E. destruct (scan ident db k) as [x|].
    + destruct IH as (i & Hi & Hid & Hbefore). exists (S i).
      repeat split; try done. intros [|j] z Hj Hz.
      * by injection Hz as <-.
      * apply (Hbefore j); [lia|done].
    + by constructor.
Qed.

(** X1. [get_asset_by_id] and [get_pnft_by_id] return the first record of
    the list that has the id, so every record before it has another id;
    they return [None] exactly when no record of the list has the id. *)
Theorem lookup_helpers_return_first_match :
  (forall (db : list Asset.t) (asset_id : Z),
     match get_asset_by_id db asset_id with
     | Some asset =>
         exists i, db !! i = Some asset /\ Asset.id asset = Some asset_id /\
           forall j a, (j < i)%nat -> db !! j = Some a -> Asset.id a <> Some asset_id
     | None => Forall (fun a => Asset.id a <> Some asset_id) db
     end) /\
  (forall (db : list pNFT.t) (pnft_id : Z),
     match get_pnft_by_id db pnft_id with
     | Some pnft =>
         exists i, db !! i = Some pnft /\ pNFT.id pnft = Some pnft_id /\
           forall j p, (j < i)%nat -> db !! j = Some p -> pNFT.id p <> Some pnft_id
     | None => Forall (fun p => pNFT.id p <> Some pnft_id) db
     end).
Proof.
  split; intros db k.
  - rewrite get_asset_by_id_scan. apply scan_first_match.
  - rewrite get_pnft_by_id_scan. apply scan_first_match.
Qed.

Lemma lookup_helpers_return_first_match_witness :
  let a k n := {| Asset.id := Some k; Asset.name := n; Asset.serial_number := "SN";
                  Asset.description := ""; Asset.owner := "Alice" |} in
  let db := [a 1 "x"; a 2 "y"; a 2 "z"] in
  get_asset_by_id db 2 = Some (a 2 "y") /\
  exists i, db !! i = Some (a 2 "y") /\ Asset.id (a 2 "y") = Some 2 /\
    forall j b, (j < i)%nat -> db !! j = Some b -> Asset.id b <> Some 2.
Proof.
  split; [reflexivity|].
  exact (proj1 lookup_helpers_return_first_match
           [ {| Asset.id := Some 1; Asset.name := "x"; Asset.serial_number := "SN";
                Asset.description := ""; Asset.owner := "Alice" |};
             {| Asset.id := Some 2; Asset.name := "y"; Asset.serial_number := "SN";
                Asset.description := ""; Asset.owner := "Alice" |};
             {| Asset.id := Some 2; Asset.name := "z"; Asset.serial_number := "SN";
                Asset.description := ""; Asset.owner := "Alice" |} ] 2).
Defined.

(** ** More on transfers *)

Lemma set_pnfts_db_id s : set_pnfts_db (pnfts_db s) s = s.
Proof. by destruct s. Qed.

Lemma set_current_owner_id p :
  pNFT.set_current_owner p (pNFT.current_owner p) = p.
Proof. by destruct p. Qed.

(** A successful transfer, with the new store written as the in-place
    assignment. *)
Lemma transfer_pnft_assign s k transfer stored :
  get_pnft_by_id (pnfts_db s) k = Some stored ->
  transfer_pnft k transfer s
    = (Return (pNFT.set_current_owner stored (pNFTTransfer.new_owner transfer)),
       set_pnfts_db
         (assign_current_owner (pnfts_db s) k (pNFTTransfer.new_owner transfer)) s).
Proof.
  intros H.
  destruct (assign_current_owner_spec _ _ (pNFTTransfer.new_owner transfer) _ 0 H)
    as (i & Hi & Heq & Hget & Hfind).
  unfold transfer_pnft, bind, gets, modify, ret. rewrite H. simpl.
  unfold update_in_database. rewrite Hfind. simpl.
  rewrite Heq, list_insert_insert_eq. done.
Qed.

Lemma snd_transfer_pnft s k transfer :
  snd (transfer_pnft k transfer s)
    = match get_pnft_by_id (pnfts_db s) k with
      | Some _ =>
          set_pnfts_db
            (assign_current_owner (pnfts_db s) k (pNFTTransfer.new_owner transfer)) s
      | None => s
      end.
Proof.
  destruct (get_pnft_by_id (pnfts_db s) k) eqn:E.
  - by rewrite (transfer_pnft_assign _ _ _ _ E).
  - by rewrite (transfer_pnft_raises _ _ _ E).
Qed.

Lemma assign_current_owner_ids db k v :
  pNFT.id <$> assign_current_owner db k v = pNFT.id <$> db.
Proof.
  induction db as [|p db IH]; [done|]. cbn [assign_current_owner].
  destruct (py_eq (pNFT.id p) k); rewrite !fmap_cons; [done|]. by rewrite IH.
Qed.

Lemma assign_current_owner_other db k v k' :
  k' <> k ->
  get_pnft_by_id (assign_current_owner db k v) k' = get_pnft_by_id db k'.
Proof.
  intros Hne. induction db as [|p db IH]; simpl; [done|].
  destruct (py_eq (pNFT.id p) k) eqn:E; simpl.
  - apply py_eq_true in E.
    assert (py_eq (pNFT.id p) k' = false) as ->; [|done].
    apply py_eq_false. rewrite E. congruence.
  - by rewrite IH.
Qed.

Lemma assign_current_owner_same db k v stored :
  get_pnft_by_id db k = Some stored ->
  get_pnft_by_id (assign_current_owner db k v) k
    = Some (pNFT.set_current_owner stored v).
Proof.
  intros H. by destruct (assign_current_owner_spec db k v stored 0 H) as (_ & _ & _ & ? & _).
Qed.

Lemma assign_current_owner_twice db k v w :
  assign_current_owner (assign_current_owner db k v) k w
    = assign_current_owner db k w.
Proof.
  induction db as [|p db IH]; simpl; [done|].
  destruct (py_eq (pNFT.id p) k) eqn:E; simpl; rewrite E; [done|]. by rewrite IH.
Qed.

Lemma assign_current_owner_current db k stored :
  get_pnft_by_id db k = Some stored ->
  assign_current_owner db k (pNFT.current_owner stored) = db.
Proof.
  induction db as [|p db IH]; simpl; [done|].
  destruct (py_eq (pNFT.id p) k).
  - intros [= ->]. by rewrite set_current_owner_id.
  - intros H. by rewrite IH.
Qed.

Lemma fst_get_pnft k s :
  fst (get_pnft k s)
    = match get_pnft_by_id (pnfts_db s) k with
      | Some p => Return p
      | None => Raise (NotFound "pNFT" k)
      end.
Proof.
  destruct (get_pnft_by_id (pnfts_db s) k) eqn:E.
  - by rewrite (get_pnft_found _ _ _ E).
  - by rewrite (get_pnft_raises _ _ E).
Qed.

(** X2. A transfer, successful or not, touches nothing but the record of
    the given id: the assets and both counters are as before, the pNFT
    store keeps its length and its ids in the same order, and [get_pnft]
    with any other id answers what it answered before. *)
Theorem transfer_pnft_frame
    (s : State) (pnft_id : Z) (transfer : pNFTTransfer.t) :
  let s' := snd (transfer_pnft pnft_id transfer s) in
  assets_db s' = assets_db s /\
  asset_counter s' = asset_counter s /\
  pnft_counter s' = pnft_counter s /\
  length (pnfts_db s') = length (pnfts_db s) /\
  pNFT.id <$> pnfts_db s' = pNFT.id <$> pnfts_db s /\
  forall k, k <> pnft_id -> fst (get_pnft k s') = fst (get_pnft k s).
Proof.
  intros s'. unfold s'. rewrite snd_transfer_pnft.
  destruct (get_pnft_by_id (pnfts_db s) pnft_id) as [stored|] eqn:E;
    [|by repeat split; auto].
  split; [done|]. split; [done|]. split; [done|]. split; [|split].
  - rewrite <- (length_fmap pNFT.id). simpl.
    by rewrite assign_current_owner_ids, length_fmap.
  - apply assign_current_owner_ids.
  - intros k Hne. rewrite !fst_get_pnft. simpl.
    by rewrite assign_current_owner_other.
Qed.

Lemma transfer_pnft_frame_witness :
  2 <> 1 /\
  fst (get_pnft 2 (snd (transfer_pnft 1 {| pNFTTransfer.new_owner := "Bob" |}
                          example_state)))
    = fst (get_pnft 2 example_state).
Proof.
  assert (H : 2 <> 1) by lia.
  split; [exact H|].
  exact (proj2 (proj2 (proj2 (proj2 (proj2
           (transfer_pnft_frame example_state 1
              {| pNFTTransfer.new_owner := "Bob" |}))))) 2 H).
Defined.

(** X3. Of two transfers of the same pNFT in a row only the second counts:
    the state after both is the state after the second alone, and the
    second returns the same response in both cases. *)
Theorem transfer_pnft_twice
    (s : State) (pnft_id : Z) (first second : pNFTTransfer.t) :
  let s1 := snd (transfer_pnft pnft_id first s) in
  snd (transfer_pnft pnft_id second s1) = snd (transfer_pnft pnft_id second s) /\
  fst (transfer_pnft pnft_id second s1) = fst (transfer_pnft pnft_id second s).
Proof.
  intros s1. unfold s1. rewrite (snd_transfer_pnft s pnft_id first).
  destruct (get_pnft_by_id (pnfts_db s) pnft_id) as [stored|] eqn:E; [|done].
  pose proof (assign_current_owner_same _ _ (pNFTTransfer.new_owner first) _ E) as E1.
  erewrite (transfer_pnft_assign _ _ second); [|exact E1].
  rewrite (transfer_pnft_assign _ _ second _ E). simpl.
  by rewrite assign_current_owner_twice.
Qed.

(** X4. Transferring a stored pNFT to the owner it already has returns the
    stored record and leaves the whole state as it was. *)
Theorem transfer_pnft_to_current_owner
    (s : State) (pnft_id : Z) (stored : pNFT.t) :
  get_pnft_by_id (pnfts_db s) pnft_id = Some stored ->
  transfer_pnft pnft_id {| pNFTTransfer.new_owner := pNFT.current_owner stored |} s
    = (Return stored, s).
Proof.
  intros H. rewrite (transfer_pnft_assign _ _ _ _ H). simpl.
  by rewrite set_current_owner_id, (assign_current_owner_current _ _ _ H),
    set_pnfts_db_id.
Qed.

Lemma transfer_pnft_to_current_owner_witness :
  let stored :=
    {| pNFT.id := Some 1; pNFT.asset_id := 1; pNFT.token_uri := "ipfs://x";
       pNFT.issued_date := "2024-01-01T00:00:00"; pNFT.current_owner := "Alice" |} in
  get_pnft_by_id (pnfts_db example_state) 1 = Some stored /\
  transfer_pnft 1 {| pNFTTransfer.new_owner := "Alice" |} example_state
    = (Return stored, example_state).
Proof.
  pose (stored :=
    {| pNFT.id := Some 1; pNFT.asset_id := 1; pNFT.token_uri := "ipfs://x";
       pNFT.issued_date := "2024-01-01T00:00:00"; pNFT.current_owner := "Alice" |}).
  assert (H : get_pnft_by_id (pnfts_db example_state) 1 = Some stored)
    by (vm_compute; reflexivity).
  split; [exact H|].
  exact (transfer_pnft_to_current_owner example_state 1 stored H).
Defined.

(** ** A pNFT over a process lifetime *)

(** What one request does to a stored pNFT: it is still found under its id,
    with the owner that [owner_after] gives and its other fields as before. *)
Lemma app_get_pnft_by_id req s k p :
  get_pnft_by_id (pnfts_db s) k = Some p ->
  get_pnft_by_id (pnfts_db (snd (app req s))) k
    = Some (pNFT.set_current_owner p (owner_after k (pNFT.current_owner p) req)).
Proof.
  intros H.
  destruct req as [|asset|pnft now|owner|k'|k' transfer| |k'];
    unfold app; rewrite snd_respond; unfold owner_after;
    rewrite ?set_current_owner_id; try done.
  - destruct (get_asset_by_id (assets_db s) (pNFTCreate.asset_id pnft)) eqn:E.
    + rewrite (create_pnft_eq _ _ _ _ E). simpl.
      rewrite get_pnft_by_id_scan in *. by apply scan_app_l.
    + by rewrite (create_pnft_raises _ _ _ E).
  - unfold list_pnfts, bind, gets, ret. by destruct (truthy owner).
  - unfold get_pnft, bind, gets, ret, raise.
    by destruct (get_pnft_by_id (pnfts_db s) k').
  - rewrite snd_transfer_pnft. destruct (Z.eqb_spec k' k) as [->|Hne].
    + rewrite H. simpl. by apply assign_current_owner_same.
    + rewrite set_current_owner_id.
      destruct (get_pnft_by_id (pnfts_db s) k'); [|done].
      simpl. rewrite assign_current_owner_other; [done|congruence].
  - unfold get_asset, bind, gets, ret, raise.
    by destruct (get_asset_by_id (assets_db s) k').
Qed.

(** X5. A stored pNFT stays stored whatever requests follow, under the same
    id and with the same [asset_id], [token_uri] and [issued_date]; its
    [current_owner] is the owner named by the last transfer of that id
    among the requests, and its old owner when there was none. *)
Theorem owner_is_set_by_last_transfer
    (s : State) (reqs : list request) (pnft_id : Z) (stored : pNFT.t) :
  get_pnft_by_id (pnfts_db s) pnft_id = Some stored ->
  fst (get_pnft pnft_id (snd (serve reqs s)))
    = Return {| pNFT.id := pNFT.id stored;
                pNFT.asset_id := pNFT.asset_id stored;
                pNFT.token_uri := pNFT.token_uri stored;
                pNFT.issued_date := pNFT.issued_date stored;
                pNFT.current_owner :=
                  last_owner pnft_id reqs (pNFT.current_owner stored) |}.
Proof.
  intros H. rewrite fst_get_pnft.
  change {| pNFT.id := pNFT.id stored;
            pNFT.asset_id := pNFT.asset_id stored;
            pNFT.token_uri := pNFT.token_uri stored;
            pNFT.issued_date := pNFT.issued_date stored;
            pNFT.current_owner :=
              last_owner pnft_id reqs (pNFT.current_owner stored) |}
    with (pNFT.set_current_owner stored
            (last_owner pnft_id reqs (pNFT.current_owner stored))).
  revert s stored H. induction reqs as [|req reqs IH]; intros s stored H.
  - simpl. by rewrite H, set_current_owner_id.
  - rewrite serve_cons. cbn [snd].
    pose proof (app_get_pnft_by_id req s pnft_id stored H) as Hreq.
    specialize (IH _ _ Hreq). simpl in IH.
    destruct (get_pnft_by_id (pnfts_db (snd (serve reqs (snd (app req s))))) pnft_id)
      as [p|]; [|done].
    injection IH as ->. done.
Qed.

Lemma owner_is_set_by_last_transfer_witness :
  let stored :=
    {| pNFT.id := Some 1; pNFT.asset_id := 1; pNFT.token_uri := "ipfs://x";
       pNFT.issued_date := "2024-01-01T00:00:00"; pNFT.current_owner := "Alice" |} in
  let reqs :=
    [ POST_pnfts_id_transfer 1 {| pNFTTransfer.new_owner := "Bob" |};
      POST_pnfts watch_token "later";
      POST_pnfts_id_transfer 2 {| pNFTTransfer.new_owner := "Dave" |};
      POST_pnfts_id_transfer 1 {| pNFTTransfer.new_owner := "Carol" |};
      GET_pnfts None ] in
  get_pnft_by_id (pnfts_db example_state) 1 = Some stored /\
  fst (get_pnft 1 (snd (serve reqs example_state)))
    = Return (pNFT.set_current_owner stored "Carol").
Proof.
  pose (stored :=
    {| pNFT.id := Some 1; pNFT.asset_id := 1; pNFT.token_uri := "ipfs://x";
       pNFT.issued_date := "2024-01-01T00:00:00"; pNFT.current_owner := "Alice" |}).
  assert (H : get_pnft_by_id (pnfts_db example_state) 1 = Some stored)
    by (vm_compute; reflexivity).
  split; [exact H|].
  exact (owner_is_set_by_last_transfer example_state
    [ POST_pnfts_id_transfer 1 {| pNFTTransfer.new_owner := "Bob" |};
      POST_pnfts watch_token "later";
      POST_pnfts_id_transfer 2 {| pNFTTransfer.new_owner := "Dave" |};
      POST_pnfts_id_transfer 1 {| pNFTTransfer.new_owner := "Carol" |};
      GET_pnfts None ] 1 stored H).
Defined.

(** ** Creating and fetching a pNFT *)

(** X6. In any state of a process lifetime, when some stored asset has the
    [asset_id] of the request, [create_pnft] returns a record with the three
    given field values, [now] as [issued_date] and the next id; it appends
    that record to the store, and [get_pnft] with that id returns it. *)
Theorem create_pnft_then_get_pnft
    (reqs : list request) (pnft : pNFTCreate.t) (now : string) :
  let s := state_after reqs in
  Exists (fun a => Asset.id a = Some (pNFTCreate.asset_id pnft)) (assets_db s) ->
  exists (k : Z) (s' : State),
    let new_pnft :=
      {| pNFT.id := Some k;
         pNFT.asset_id := pNFTCreate.asset_id pnft;
         pNFT.token_uri := pNFTCreate.token_uri pnft;
         pNFT.issued_date := now;
         pNFT.current_owner := pNFTCreate.current_owner pnft |} in
    k = pnft_counter s + 1 /\
    create_pnft pnft now s = (Return new_pnft, s') /\
    pnfts_db s' = pnfts_db s ++ [new_pnft] /\
    get_pnft k s' = (Return new_pnft, s').
Proof.
  intros s Hasset.
  apply (scan_is_Some Asset.id) in Hasset as [asset Hfound].
  rewrite <- get_asset_by_id_scan in Hfound.
  pose proof (consistent_state_after reqs) as Hs. fold s in Hs.
  eexists _, _. cbv zeta. split; [reflexivity|].
  rewrite (create_pnft_eq _ _ _ _ Hfound). cbv zeta.
  split; [reflexivity|]. split; [reflexivity|].
  apply get_pnft_found. simpl. rewrite get_pnft_by_id_scan, scan_app_r.
  - simpl. by rewrite Z.eqb_refl.
  - apply (scan_fresh _ _ (pnft_counter s)); [apply Hs|lia].
Qed.

Lemma create_pnft_then_get_pnft_witness :
  Exists (fun a => Asset.id a = Some 1) (assets_db (state_after example_requests)) /\
  exists (k : Z) (s' : State),
    let new_pnft :=
      {| pNFT.id := Some k; pNFT.asset_id := 1; pNFT.token_uri := "ipfs://x";
         pNFT.issued_date := "later"; pNFT.current_owner := "Alice" |} in
    k = pnft_counter (state_after example_requests) + 1 /\
    create_pnft watch_token "later" (state_after example_requests)
      = (Return new_pnft, s') /\
    pnfts_db s' = pnfts_db (state_after example_requests) ++ [new_pnft] /\
    get_pnft k s' = (Return new_pnft, s').
Proof.
  assert (H : Exists (fun a => Asset.id a = Some 1)
                (assets_db (state_after example_requests))).
  { vm_compute. left. reflexivity. }
  split; [exact H|].
  exact (create_pnft_then_get_pnft example_requests watch_token "later" H).
Defined.

(** ** Lookups in a process lifetime *)

Lemma scan_consecutive {A} (ident : A -> option Z) (db : list A) (m k : Z) :
  ident <$> db = Some <$> seqZ m (Z.of_nat (length db)) ->
  scan ident db k = if decide (m <= k) then db !! Z.to_nat (k - m) else None.
Proof.
  revert m. induction db as [|x db IH]; intros m Hids.
  - simpl. by destruct (decide (m <= k)).
  - rewrite length_cons, seqZ_cons, !fmap_cons in Hids by lia.
    injection Hids as Hx Hids.
    replace (Z.pred (Z.of_nat (S (length db)))) with (Z.of_nat (length db))
      in Hids by lia.
    simpl. rewrite Hx. simpl. destruct (Z.eqb_spec m k) as [->|Hne].
    + rewrite decide_True by lia. by rewrite Z.sub_diag.
    + rewrite (IH _ Hids). destruct (decide (m <= k)).
      * rewrite decide_True by lia.
        replace (Z.to_nat (k - m)) with (S (Z.to_nat (k - Z.succ m))) by lia.
        done.
      * by rewrite decide_False by lia.
Qed.

Lemma consistent_ids_by_length s :
  consistent s ->
  Asset.id <$> assets_db s = Some <$> seqZ 1 (Z.of_nat (length (assets_db s))) /\
  pNFT.id <$> pnfts_db s = Some <$> seqZ 1 (Z.of_nat (length (pnfts_db s))).
Proof.
  intros [Ha Hac Hp Hpc _].
  by rewrite <- (ids_length _ _ _ Ha Hac), <- (ids_length _ _ _ Hp Hpc).
Qed.

Lemma lookup_by_id_index (reqs : list request) (k : Z) :
  let s := state_after reqs in
  get_asset_by_id (assets_db s) k
    = (if decide (1 <= k) then assets_db s !! Z.to_nat (k - 1) else None) /\
  get_pnft_by_id (pnfts_db s) k
    = (if decide (1 <= k) then pnfts_db s !! Z.to_nat (k - 1) else None).
Proof.
  intros s.
  destruct (consistent_ids_by_length s (consistent_state_after reqs)) as [Ha Hp].
  split.
  - rewrite get_asset_by_id_scan. by apply scan_consecutive.
  - rewrite get_pnft_by_id_scan. by apply scan_consecutive.
Qed.

Lemma is_Some_index {A} (l : list A) (k : Z) :
  is_Some (if decide (1 <= k) then l !! Z.to_nat (k - 1) else None)
    <-> 1 <= k <= Z.of_nat (length l).
Proof.
  destruct (decide (1 <= k)).
  - rewrite lookup_lt_is_Some. lia.
  - split; [intros [? [=]]|lia].
Qed.

(** X7. In any state of a process lifetime the lookup helpers are
    indexing: for [k >= 1] they return the [k]-th record of their store,
    counting from 1, and for [k < 1] nothing; so a lookup finds a record
    exactly for the ids from 1 to the number of stored records. *)
Theorem lookup_by_id_is_indexing (reqs : list request) (k : Z) :
  let s := state_after reqs in
  get_asset_by_id (assets_db s) k
    = (if decide (1 <= k) then assets_db s !! Z.to_nat (k - 1) else None) /\
  get_pnft_by_id (pnfts_db s) k
    = (if decide (1 <= k) then pnfts_db s !! Z.to_nat (k - 1) else None) /\
  (is_Some (get_asset_by_id (assets_db s) k)
     <-> 1 <= k <= Z.of_nat (length (assets_db s))) /\
  (is_Some (get_pnft_by_id (pnfts_db s) k)
     <-> 1 <= k <= Z.of_nat (length (pnfts_db s))).
Proof.
  intros s. destruct (lookup_by_id_index reqs k) as [HA HP]. fold s in HA, HP.
  split; [exact HA|]. split; [exact HP|]. rewrite HA, HP.
  split; apply is_Some_index.
Qed.

Lemma lookup_by_id_is_indexing_witness :
  1 <= 1 <= Z.of_nat (length (pnfts_db (state_after example_requests))) /\
  is_Some (get_pnft_by_id (pnfts_db (state_after example_requests)) 1).
Proof.
  assert (H : 1 <= 1 <= Z.of_nat (length (pnfts_db (state_after example_requests))))
    by (vm_compute; split; discriminate).
  split; [exact H|].
  exact (proj2 (proj2 (proj2 (proj2 (lookup_by_id_is_indexing example_requests 1)))) H).
Defined.

(** X8. In any state of a process lifetime with n stored assets,
    [create_pnft] succeeds exactly for the asset ids 1, ..., n, whatever the
    token URI and the owner are; for every other asset id it raises the
    404 and leaves the state as it was. *)
Theorem create_pnft_succeeds_for_created_assets
    (reqs : list request) (pnft : pNFTCreate.t) (now : string) :
  let s := state_after reqs in
  let k := pNFTCreate.asset_id pnft in
  create_pnft pnft now s
    = if decide (1 <= k <= Z.of_nat (length (assets_db s)))
      then
        let new_pnft :=
          {| pNFT.id := Some (pnft_counter s + 1);
             pNFT.asset_id := k;
             pNFT.token_uri := pNFTCreate.token_uri pnft;
             pNFT.issued_date := now;
             pNFT.current_owner := pNFTCreate.current_owner pnft |} in
        (Return new_pnft,
         set_pnfts_db (pnfts_db s ++ [new_pnft])
           (set_pnft_counter (pnft_counter s + 1) s))
      else (Raise (NotFound "Asset" k), s).
Proof.
  intros s k.
  assert (Hrange : is_Some (get_asset_by_id (assets_db s) k)
                   <-> 1 <= k <= Z.of_nat (length (assets_db s))).
  { unfold s, k. rewrite (proj1 (lookup_by_id_index reqs _)). apply is_Some_index. }
  destruct (decide (1 <= k <= Z.of_nat (length (assets_db s)))) as [Hk|Hk].
  - apply Hrange in Hk as [asset Hfound]. by rewrite (create_pnft_eq _ _ _ _ Hfound).
  - apply create_pnft_raises. apply eq_None_not_Some.
    intros Hsome. by apply Hk, Hrange.
Qed.

(** ** Reading endpoints *)

Lemma snd_app_GET (s : State) (req : request) :
  is_GET req = true -> snd (app req s) = s.
Proof.
  destruct req as [|asset|pnft now|owner|k|k transfer| |k]; try discriminate;
    intros _; unfold app; rewrite snd_respond; try done.
  - unfold list_pnfts, bind, gets, ret. by destruct (truthy owner).
  - unfold get_pnft, bind, gets, ret, raise.
    by destruct (get_pnft_by_id (pnfts_db s) k).
  - unfold get_asset, bind, gets, ret, raise.
    by destruct (get_asset_by_id (assets_db s) k).
Qed.

(** X9. No GET endpoint changes the state, whether it answers with a value
    or with the 404: a sequence of GET requests, of any length and in any
    state, leaves the state as it was. *)
Theorem GET_leaves_state_unchanged (s : State) (reqs : list request) :
  forallb is_GET reqs = true -> snd (serve reqs s) = s.
Proof.
  induction reqs as [|req reqs IH]; [done|].
  cbn [forallb]. intros [Hreq Hreqs]%andb_prop.
  rewrite serve_cons. cbn [snd]. rewrite (snd_app_GET s req Hreq). by apply IH.
Qed.

Lemma GET_leaves_state_unchanged_witness :
  let reqs := [GET_root; GET_pnfts (Some "Alice"); GET_pnfts_id 5; GET_pnfts_id 1;
               GET_assets; GET_assets_id 1; GET_assets_id 0] in
  forallb is_GET reqs = true /\ snd (serve reqs example_state) = example_state.
Proof.
  pose (reqs := [GET_root; GET_pnfts (Some "Alice"); GET_pnfts_id 5; GET_pnfts_id 1;
                 GET_assets; GET_assets_id 1; GET_assets_id 0]).
  assert (H : forallb is_GET reqs = true) by reflexivity.
  split; [exact H|].
  exact (GET_leaves_state_unchanged example_state reqs H).
Defined.

Lemma app_assets_db req s :
  assets_db (snd (app req s))
    = assets_db s ++ option_list (created_asset req (fst (app req s))).
Proof.
  destruct (is_GET req) eqn:Hget.
  - rewrite (snd_app_GET s req Hget).
    destruct req; try discriminate; cbn [created_asset option_list];
      by rewrite app_nil_r.
  - destruct req as [|asset|pnft now|owner|k|k transfer| |k]; try discriminate.
    + unfold app, respond. by rewrite create_asset_eq.
    + unfold app. rewrite snd_respond. simpl. rewrite app_nil_r.
      destruct (get_asset_by_id (assets_db s) (pNFTCreate.asset_id pnft)) eqn:E.
      * by rewrite (create_pnft_eq _ _ _ _ E).
      * by rewrite (create_pnft_raises _ _ _ E).
    + unfold app. rewrite snd_respond, snd_transfer_pnft. simpl.
      rewrite app_nil_r. by destruct (get_pnft_by_id (pnfts_db s) k).
Qed.

Lemma created_assets_cons req reqs r rs :
  created_assets (req :: reqs) (r :: rs)
    = option_list (created_asset req r) ++ created_assets reqs rs.
Proof. unfold created_assets. simpl. by destruct (created_asset req r). Qed.

Lemma serve_assets_db reqs s :
  assets_db (snd (serve reqs s))
    = assets_db s ++ created_assets reqs (fst (serve reqs s)).
Proof.
  revert s. induction reqs as [|req reqs IH]; intros s.
  - simpl. by rewrite app_nil_r.
  - rewrite serve_cons. cbn [fst snd].
    by rewrite IH, app_assets_db, created_assets_cons, <- app_assoc.
Qed.

(** X10. After any sequence of requests from the initial state,
    [list_assets] returns exactly the records that the asset creations of
    the sequence returned, in the order of creation: no asset is lost,
    reordered or altered. *)
Theorem list_assets_returns_created_assets (reqs : list request) :
  list_assets (state_after reqs)
    = (Return (created_assets reqs (responses_to reqs)), state_after reqs) /\
  app GET_assets (state_after reqs)
    = (OK (AssetListBody (created_assets reqs (responses_to reqs))),
       state_after reqs).
Proof.
  assert (H : assets_db (state_after reqs)
              = created_assets reqs (responses_to reqs)).
  { unfold state_after, responses_to. by rewrite serve_assets_db. }
  unfold app, respond, list_assets, gets. by rewrite H.
Qed.

(** X11. An asset that can be fetched stays fetchable: once [get_asset]
    returns a record for an id, it returns that same record after any
    further requests. *)
Theorem get_asset_is_stable
    (s : State) (reqs : list request) (asset_id : Z) (asset : Asset.t) :
  get_asset asset_id s = (Return asset, s) ->
  get_asset asset_id (snd (serve reqs s)) = (Return asset, snd (serve reqs s)).
Proof.
  intros H. apply get_asset_found.
  assert (Hfound : get_asset_by_id (assets_db s) asset_id = Some asset).
  { unfold get_asset, bind, gets, ret, raise in H.
    destruct (get_asset_by_id (assets_db s) asset_id); [|discriminate].
    by injection H as ->. }
  rewrite serve_assets_db, get_asset_by_id_scan.
  apply scan_app_l. by rewrite <- get_asset_by_id_scan.
Qed.

Lemma get_asset_is_stable_witness :
  let asset :=
    {| Asset.id := Some 1; Asset.name := "Watch"; Asset.serial_number := "SN1";
       Asset.description := "Luxury watch"; Asset.owner := "Alice" |} in
  let reqs :=
    [ POST_assets watch;
      POST_pnfts_id_transfer 1 {| pNFTTransfer.new_owner := "Bob" |} ] in
  get_asset 1 example_state = (Return asset, example_state) /\
  get_asset 1 (snd (serve reqs example_state))
    = (Return asset, snd (serve reqs example_state)).
Proof.
  pose (asset :=
    {| Asset.id := Some 1; Asset.name := "Watch"; Asset.serial_number := "SN1";
       Asset.description := "Luxury watch"; Asset.owner := "Alice" |}).
  assert (H : get_asset 1 example_state = (Return asset, example_state))
    by (vm_compute; reflexivity).
  split; [exact H|].
  exact (get_asset_is_stable example_state
           [ POST_assets watch;
             POST_pnfts_id_transfer 1 {| pNFTTransfer.new_owner := "Bob" |} ]
           1 asset H).
Defined.

(** ** Listing by owner *)

Lemma fst_list_pnfts owner s :
  owner <> "" ->
  fst (list_pnfts (Some owner) s)
    = Return (filter (fun p => pNFT.current_owner p = owner) (pnfts_db s)).
Proof.
  intros Hne. unfold list_pnfts. apply truthy_Some in Hne. rewrite Hne.
  unfold bind, gets, ret. simpl. by rewrite filtered_pnfts_filter.
Qed.

(** X12. Listing by a non-empty owner that owns no stored pNFT answers with
    the empty list, not with an error, and changes nothing. *)
Theorem list_pnfts_of_unknown_owner (s : State) (owner : string) :
  owner <> "" ->
  Forall (fun p => pNFT.current_owner p <> owner) (pnfts_db s) ->
  app (GET_pnfts (Some owner)) s = (OK (pNFTListBody []), s).
Proof.
  intros Hne Hnone. unfold app, respond, list_pnfts.
  apply truthy_Some in Hne. rewrite Hne. unfold bind, gets, ret. simpl.
  replace (filtered_pnfts (pnfts_db s) owner) with (@nil pNFT.t); [done|].
  symmetry. induction Hnone as [|p db Hp _ IH]; simpl; [done|].
  by destruct (String.eqb_spec (pNFT.current_owner p) owner).
Qed.

Lemma list_pnfts_of_unknown_owner_witness :
  "Bob" <> "" /\
  Forall (fun p => pNFT.current_owner p <> "Bob") (pnfts_db example_state) /\
  app (GET_pnfts (Some "Bob")) example_state = (OK (pNFTListBody []), example_state).
Proof.
  assert (H1 : "Bob" <> "") by discriminate.
  assert (H2 : Forall (fun p => pNFT.current_owner p <> "Bob")
                 (pnfts_db example_state)).
  { vm_compute. repeat constructor. discriminate. }
  split; [exact H1|]. split; [exact H2|].
  exact (list_pnfts_of_unknown_owner example_state "Bob" H1 H2).
Defined.

Lemma consistent_pnft_ids_NoDup s : consistent s -> NoDup (pNFT.id <$> pnfts_db s).
Proof.
  intros Hs. rewrite (pnft_ids_consecutive _ Hs).
  apply (NoDup_fmap_2 _), NoDup_seqZ.
Qed.

(** X13. In any state of a process lifetime, after a stored pNFT is
    transferred to a non-empty new owner, the listing for the new owner
    contains the updated record and the listing for any other non-empty
    owner contains no record with that id. *)
Theorem transferred_pnft_is_listed_under_new_owner
    (reqs : list request) (pnft_id : Z) (transfer : pNFTTransfer.t)
    (stored : pNFT.t) :
  let s := state_after reqs in
  let new_owner := pNFTTransfer.new_owner transfer in
  get_pnft_by_id (pnfts_db s) pnft_id = Some stored ->
  new_owner <> "" ->
  let s' := snd (transfer_pnft pnft_id transfer s) in
  (exists l, fst (list_pnfts (Some new_owner) s') = Return l /\
             pNFT.set_current_owner stored new_owner ∈ l) /\
  forall owner l,
    owner <> "" -> owner <> new_owner ->
    fst (list_pnfts (Some owner) s') = Return l ->
    Forall (fun p => pNFT.id p <> Some pnft_id) l.
Proof.
  intros s new_owner Hstored Hne s'.
  assert (Hs' : consistent s').
  { apply consistent_transfer_pnft, consistent_state_after. }
  assert (Hupd : get_pnft_by_id (pnfts_db s') pnft_id
                 = Some (pNFT.set_current_owner stored new_owner)).
  { unfold s'. rewrite snd_transfer_pnft, Hstored. simpl.
    by apply assign_current_owner_same. }
  rewrite get_pnft_by_id_scan in Hupd. split.
  - eexists. split; [by apply fst_list_pnfts|].
    apply list_elem_of_filter. split; [done|].
    by apply scan_Some in Hupd as [? _].
  - intros owner l Howner Hother Hl.
    rewrite fst_list_pnfts in Hl by done. injection Hl as <-.
    apply Forall_forall. intros p Hp Hid.
    apply list_elem_of_filter in Hp as [Hp_owner Hp].
    pose proof (scan_NoDup pNFT.id _ _ _
                  (consistent_pnft_ids_NoDup _ Hs') Hp Hid) as Hscan.
    rewrite Hupd in Hscan. injection Hscan as <-. simpl in Hp_owner.
    congruence.
Qed.

Lemma transferred_pnft_is_listed_under_new_owner_witness :
  let stored :=
    {| pNFT.id := Some 1; pNFT.asset_id := 1; pNFT.token_uri := "ipfs://x";
       pNFT.issued_date := "2024-01-01T00:00:00"; pNFT.current_owner := "Alice" |} in
  let s' := snd (transfer_pnft 1 {| pNFTTransfer.new_owner := "Bob" |}
                   (state_after example_requests)) in
  get_pnft_by_id (pnfts_db (state_after example_requests)) 1 = Some stored /\
  "Bob" <> "" /\ "Alice" <> "" /\ "Alice" <> "Bob" /\
  fst (list_pnfts (Some "Alice") s') = Return [] /\
  exists l, fst (list_pnfts (Some "Bob") s') = Return l /\
            pNFT.set_current_owner stored "Bob" ∈ l.
Proof.
  pose (stored :=
    {| pNFT.id := Some 1; pNFT.asset_id := 1; pNFT.token_uri := "ipfs://x";
       pNFT.issued_date := "2024-01-01T00:00:00"; pNFT.current_owner := "Alice" |}).
  assert (H1 : get_pnft_by_id (pnfts_db (state_after example_requests)) 1
               = Some stored) by (vm_compute; reflexivity).
  assert (H2 : "Bob" <> "") by discriminate.
  split; [exact H1|]. split; [exact H2|].
  split; [discriminate|]. split; [discriminate|].
  split; [vm_compute; reflexivity|].
  exact (proj1 (transferred_pnft_is_listed_under_new_owner example_requests 1
                  {| pNFTTransfer.new_owner := "Bob" |} stored H1 H2)).
Defined.

(** ** The stored pNFTs and the creations *)

Lemma app_pnft_ids req s :
  pNFT.id <$> pnfts_db (snd (app req s))
    = (pNFT.id <$> pnfts_db s) ++ option_list (created_pnft_id req (fst (app req s))).
Proof.
  destruct (is_GET req) eqn:Hget.
  - rewrite (snd_app_GET s req Hget).
    destruct req; try discriminate; cbn [created_pnft_id option_list];
      by rewrite app_nil_r.
  - destruct req as [|asset|pnft now|owner|k|k transfer| |k]; try discriminate.
    + unfold app, respond. rewrite create_asset_eq. simpl. by rewrite app_nil_r.
    + unfold app, respond.
      destruct (get_asset_by_id (assets_db s) (pNFTCreate.asset_id pnft)) eqn:E.
      * rewrite (create_pnft_eq _ _ _ _ E). simpl. by rewrite fmap_app.
      * rewrite (create_pnft_raises _ _ _ E). simpl. by rewrite app_nil_r.
    + unfold app. rewrite snd_respond, snd_transfer_pnft.
      cbn [created_pnft_id option_list]. rewrite app_nil_r.
      destruct (get_pnft_by_id (pnfts_db s) k); [|done].
      simpl. apply assign_current_owner_ids.
Qed.

Lemma serve_pnft_ids reqs s :
  pNFT.id <$> pnfts_db (snd (serve reqs s))
    = (pNFT.id <$> pnfts_db s) ++ assigned created_pnft_id reqs (fst (serve reqs s)).
Proof.
  revert s. induction reqs as [|req reqs IH]; intros s.
  - simpl. by rewrite app_nil_r.
  - rewrite serve_cons. cbn [fst snd].
    rewrite IH, app_pnft_ids, assigned_cons, <- app_assoc.
    by destruct (created_pnft_id req (fst (app req s))).
Qed.

(** X14. After any sequence of requests from the initial state, the ids of
    the pNFTs that the unfiltered listing returns are exactly the ids that
    the successful pNFT creations of the sequence handed out, in that
    order: transfers and failed creations neither add, drop nor reorder
    records. *)
Theorem list_pnfts_lists_created_ids (reqs : list request) :
  exists l,
    list_pnfts None (state_after reqs) = (Return l, state_after reqs) /\
    pNFT.id <$> l = assigned_pnft_ids reqs.
Proof.
  exists (pnfts_db (state_after reqs)). split; [done|].
  unfold state_after, assigned_pnft_ids, responses_to.
  by rewrite serve_pnft_ids.
Qed.

(** ** Token URIs and UUIDs *)

Lemma generate_token_uri_eq (random : Z) :
  generate_token_uri random = "ipfs://Qm" +:+ uuid.format_032x (uuid.uuid4 random).
Proof.
  unfold generate_token_uri, uuid.str. cbv zeta.
  rewrite ungroup; [done|apply hexdigits_length|apply hexdigits_is_hex].
Qed.

Lemma uuid4_range (random : Z) : 0 <= uuid.uuid4 random < 2 ^ 128.
Proof.
  assert (H : Z.land (uuid.uuid4 random) (Z.ones 128) = uuid.uuid4 random).
  { apply Z.bits_inj'. intros i Hi. rewrite Z.land_spec.
    destruct (Z.ltb_spec i 128) as [Hlt|Hge].
    - rewrite Z.ones_spec_low by lia. apply andb_true_r.
    - rewrite Z.ones_spec_high by lia. rewrite andb_false_r. symmetry.
      unfold uuid.uuid4. cbv zeta.
      repeat first [rewrite Z.lor_spec | rewrite Z.land_spec].
      rewrite Z.ones_spec_high by lia.
      rewrite !Z.shiftl_spec by lia.
      rewrite (Z.bits_above_log2 4), (Z.bits_above_log2 0x8000)
        by (simpl; lia).
      by rewrite !andb_false_r. }
  rewrite Z.land_ones in H by lia.
  pose proof (Z.mod_pos_bound (uuid.uuid4 random) (2 ^ 128)). lia.
Qed.

Lemma hexdigit_inj d e :
  0 <= d < 16 -> 0 <= e < 16 -> uuid.hexdigit d = uuid.hexdigit e -> d = e.
Proof.
  intros Hd He.
  assert (Hd' : d = 0 \/ d = 1 \/ d = 2 \/ d = 3 \/ d = 4 \/ d = 5 \/ d = 6 \/
                d = 7 \/ d = 8 \/ d = 9 \/ d = 10 \/ d = 11 \/ d = 12 \/
                d = 13 \/ d = 14 \/ d = 15) by lia.
  assert (He' : e = 0 \/ e = 1 \/ e = 2 \/ e = 3 \/ e = 4 \/ e = 5 \/ e = 6 \/
                e = 7 \/ e = 8 \/ e = 9 \/ e = 10 \/ e = 11 \/ e = 12 \/
                e = 13 \/ e = 14 \/ e = 15) by lia.
  clear Hd He.
  repeat (destruct Hd' as [->|Hd']); try subst d;
    repeat (destruct He' as [->|He']); try subst e;
    simpl; intros H; first [reflexivity | discriminate H].
Qed.

Lemma hexdigits_inj k n m :
  uuid.hexdigits k n = uuid.hexdigits k m ->
  n mod 2 ^ (4 * Z.of_nat k) = m mod 2 ^ (4 * Z.of_nat k).
Proof.
  induction k as [|k IH]; [by rewrite !Z.mod_1_r|].
  cbn [uuid.hexdigits]. intros [= Hd Hrest].
  specialize (IH Hrest).
  change 15 with (Z.ones 4) in Hd.
  rewrite !Z.land_ones, !Z.shiftr_div_pow2 in Hd by lia.
  apply hexdigit_inj in Hd; [|by apply Z.mod_pos_bound..].
  replace (4 * Z.of_nat (S k)) with (4 * Z.of_nat k + 4) by lia.
  rewrite Z.pow_add_r by lia.
  rewrite !Z.rem_mul_r by lia. by rewrite IH, Hd.
Qed.

Lemma string_app_inv_head (p a b : string) : p +:+ a = p +:+ b -> a = b.
Proof.
  induction p as [|c p IH]; [done|]. cbn [String.append]. intros [= H]. auto.
Qed.

(** X15. Two calls of [generate_token_uri] return the same URI exactly when
    [uuid4] returned the same UUID: the URI carries all 128 bits of the
    UUID. *)
Theorem generate_token_uri_injective (random1 random2 : Z) :
  generate_token_uri random1 = generate_token_uri random2
    <-> uuid.uuid4 random1 = uuid.uuid4 random2.
Proof.
  rewrite (generate_token_uri_eq random1), (generate_token_uri_eq random2).
  split.
  - intros H. apply string_app_inv_head in H. unfold uuid.format_032x in H.
    apply hexdigits_inj in H.
    pose proof (uuid4_range random1) as H1.
    pose proof (uuid4_range random2) as H2.
    change (2 ^ (4 * Z.of_nat 32)) with (2 ^ 128) in H.
    by rewrite (Z.mod_small _ _ H1), (Z.mod_small _ _ H2) in H.
  - by intros ->.
Qed.

Lemma generate_token_uri_injective_witness :
  uuid.uuid4 0 = uuid.uuid4 (2 ^ 76) /\
  generate_token_uri 0 = generate_token_uri (2 ^ 76).
Proof.
  assert (H : uuid.uuid4 0 = uuid.uuid4 (2 ^ 76)) by (vm_compute; reflexivity).
  split; [exact H|].
  exact (proj2 (generate_token_uri_injective 0 (2 ^ 76)) H).
Defined.
